(** * slp2ibe: sea-level pressure to inverse-barometer correction

    A shallow embedding of [captoolkit/ibe/slp2ibe.py] and the properties
    of its transform [slp_to_ibe] and of its driver [main].

    Numeric model.  A cell of a float64 array is either the not-a-number
    sentinel or a finite number.  Every finite binary64 value is a
    rational, so finite cells are canonical rationals ([Qc]) and the
    arithmetic on them is exact: rounding to binary64, overflow and the
    two infinities are outside this model.  It carries the properties of
    structure (formula, shape, missing cells, sign, errors); an equality
    between two results that are computed apart holds in it up to
    rounding only, and is stated as a property of exact arithmetic.

    A second reading of the transform, over the kernel's binary64 numbers
    ([slp_to_ibe64]), computes what rounding does on concrete inputs. *)

From Stdlib Require Import PrimFloat.
From Stdlib Require Import QArith Qcanon Field.
From Stdlib Require Qcabs.
From stdpp Require Import gmap strings list fin_maps numbers.

Local Open Scope nat_scope.

(** * Part I: the embedding *)

(** ** Exceptions and results *)

Inductive exn :=
  | IndexError
  | ValueError
  | ZeroDivisionError
  | KeyError
  | AttributeError
  | FileNotFoundError.

Inductive result (A : Type) :=
  | Ok (a : A)
  | Err (e : exn).
Arguments Ok {A} a.
Arguments Err {A} e.

Global Instance result_ret : MRet result := fun A a => Ok a.
Global Instance result_bind : MBind result := fun A B f r =>
  match r with
  | Ok a => f a
  | Err e => Err e
  end.

Global Instance result_fmap : FMap result := fun A B f r =>
  match r with
  | Ok a => Ok (f a)
  | Err e => Err e
  end.

Definition of_option {A} (e : exn) (o : option A) : result A :=
  match o with
  | Some a => Ok a
  | None => Err e
  end.

(** ** float64 cells *)

Inductive float64 :=
  | NaN
  | Num (q : Qc).

Definition isnan (v : float64) : bool :=
  match v with
  | NaN => true
  | Num _ => false
  end.

Definition fadd (a b : float64) : float64 :=
  match a, b with
  | Num x, Num y => Num (x + y)
  | _, _ => NaN
  end.

Definition fsub (a b : float64) : float64 :=
  match a, b with
  | Num x, Num y => Num (x - y)
  | _, _ => NaN
  end.

Definition fmul (a b : float64) : float64 :=
  match a, b with
  | Num x, Num y => Num (x * y)
  | _, _ => NaN
  end.

(** [a / s] for a finite divisor [s]; it is only used with [s <> 0]. *)
Definition fdiv_scalar (a : float64) (s : Qc) : float64 :=
  match a with
  | Num x => Num (x / s)
  | NaN => NaN
  end.

Definition Qc_eqb (x y : Qc) : bool := Qeq_bool x y.

Definition float64_eqb (a b : float64) : bool :=
  match a, b with
  | NaN, NaN => true
  | Num x, Num y => Qc_eqb x y
  | _, _ => false
  end.

(** ** n-dimensional arrays

    An array is its shape and its cells in row-major (C) order, as in a
    contiguous numpy buffer. *)

Record ndarray := mk_ndarray {
  shape : list nat;
  data : list float64
}.

Definition ndim (a : ndarray) : nat := length (shape a).

(** [np.prod(shape)]: the number of cells. *)
Definition size (sh : list nat) : nat := fold_right Nat.mul 1 sh.

Definition wf (a : ndarray) : Prop := length (data a) = size (shape a).

(** Offset of a multi-index in the row-major buffer. *)
Fixpoint ravel (sh idx : list nat) : nat :=
  match sh, idx with
  | _ :: sh', i :: idx' => i * size sh' + ravel sh' idx'
  | _, _ => 0
  end.

Fixpoint in_bounds (sh idx : list nat) : bool :=
  match sh, idx with
  | [], [] => true
  | d :: sh', i :: idx' => (i <? d) && in_bounds sh' idx'
  | _, _ => false
  end.

(** [a[idx]] for an index inside the shape. *)
Definition item (a : ndarray) (idx : list nat) : float64 :=
  nth (ravel (shape a) idx) (data a) NaN.

(** [np.ndindex]: every multi-index of a shape, in row-major order. *)
Fixpoint indices (sh : list nat) : list (list nat) :=
  match sh with
  | [] => [[]]
  | d :: sh' => flat_map (fun i => map (cons i) (indices sh')) (seq 0 d)
  end.

(** *** [np.nanmean(a, axis=0)]

    numpy replaces the not-a-number cells by zero, sums along the axis,
    counts the cells that were numbers and divides; a lane with no number
    gives 0/0, which is not-a-number (and a warning, not an exception).
    On a 0-dimensional array numpy lets [axis=0] through and returns the
    mean of its one cell: nothing is raised there. *)

Definition replace_nan (v : float64) : Qc :=
  match v with
  | NaN => 0%Qc
  | Num q => q
  end.

Definition Qc_sum (l : list Qc) : Qc := fold_right Qcplus 0%Qc l.

Definition count_numbers (l : list float64) : nat :=
  length (filter (fun v => negb (isnan v)) l).

Definition divide_by_count (tot : Qc) (cnt : nat) : float64 :=
  match cnt with
  | O => NaN
  | S _ => Num (tot / Qc_of_Z (Z.of_nat cnt))
  end.

Definition nanmean_lane (l : list float64) : float64 :=
  divide_by_count (Qc_sum (map replace_nan l)) (count_numbers l).

(** The cells [a[0, j], a[1, j], ..., a[n-1, j]] where [j] is the offset of
    the remaining axes and [m] their number of cells. *)
Definition lane (a : ndarray) (n m j : nat) : list float64 :=
  map (fun i => nth (i * m + j) (data a) NaN) (seq 0 n).

Definition nanmean_axis0 (a : ndarray) : result ndarray :=
  match shape a with
  | [] => Ok (mk_ndarray [] [nanmean_lane (data a)])
  | n :: rest =>
      let m := size rest in
      Ok (mk_ndarray rest (map (fun j => nanmean_lane (lane a n m j)) (seq 0 m)))
  end.

(** *** [a[np.newaxis, :, :]] *)

Definition index_newaxis_2 (a : ndarray) : result ndarray :=
  if ndim a <? 2 then Err IndexError
  else Ok (mk_ndarray (1 :: shape a) (data a)).

(** *** Broadcasting and arithmetic *)

Definition broadcast_dim (a b : nat) : option nat :=
  if a =? b then Some a
  else if a =? 1 then Some b
  else if b =? 1 then Some a
  else None.

(** Shapes are matched from the last axis, so this works on reversed
    shapes. *)
Fixpoint broadcast_rev (s1 s2 : list nat) : option (list nat) :=
  match s1, s2 with
  | [], s => Some s
  | s, [] => Some s
  | a :: s1', b :: s2' =>
      match broadcast_dim a b, broadcast_rev s1' s2' with
      | Some d, Some s => Some (d :: s)
      | _, _ => None
      end
  end.

Definition broadcast_shapes (s1 s2 : list nat) : option (list nat) :=
  option_map (@rev nat) (broadcast_rev (rev s1) (rev s2)).

(** The index read in an operand of shape [sh] for the index [idx] of the
    broadcast result: leading axes the operand lacks are dropped, and an
    axis of length one is read at 0. *)
Definition source_index (sh idx : list nat) : list nat :=
  zip_with (fun d i => if d =? 1 then 0 else i) sh
           (drop (length idx - length sh) idx).

Definition broadcast_to (a : ndarray) (sh : list nat) : ndarray :=
  mk_ndarray sh (map (fun idx => item a (source_index (shape a) idx)) (indices sh)).

(** [a - b] on arrays. *)
Definition subtract (a b : ndarray) : result ndarray :=
  match broadcast_shapes (shape a) (shape b) with
  | None => Err ValueError
  | Some sh =>
      Ok (mk_ndarray sh (zip_with fsub (data (broadcast_to a sh))
                                       (data (broadcast_to b sh))))
  end.

(** [k * a], [a * k], [a / k] and [a + c] for a Python float and an array. *)
Definition scalar_mul (k : Qc) (a : ndarray) : ndarray :=
  mk_ndarray (shape a) (map (fmul (Num k)) (data a)).

Definition mul_scalar (a : ndarray) (k : Qc) : ndarray :=
  mk_ndarray (shape a) (map (fun v => fmul v (Num k)) (data a)).

Definition div_scalar (a : ndarray) (k : Qc) : ndarray :=
  mk_ndarray (shape a) (map (fun v => fdiv_scalar v k) (data a)).

Definition add_scalar (a : ndarray) (c : Qc) : ndarray :=
  mk_ndarray (shape a) (map (fun v => fadd v (Num c)) (data a)).

(** [x / y] on Python floats raises on a zero divisor. *)
Definition py_div (x y : Qc) : result Qc :=
  if Qc_eqb y 0 then Err ZeroDivisionError else Ok (x / y)%Qc.

(** ** The transform *)

(** What a caller may pass for the [P_ref] parameter. *)
Inductive pyval :=
  | PyNone
  | PyFloat (q : Qc)
  | PyArray (a : ndarray).

Definition rho_default : Qc := Qc_of_Z 1028.
Definition g_default : Qc := Q2Qc (980665 # 100000).

(** [slp_to_ibe(P, rho, g, P_ref)].  Line 79 rebinds [P_ref] before any
    use; line 80 evaluates its left factor first. *)
Definition slp_to_ibe (P : ndarray) (rho g : Qc) (P_ref : pyval) : result ndarray :=
  P_ref ← nanmean_axis0 P;
  k ← py_div (-1)%Qc (rho * g)%Qc;
  r ← index_newaxis_2 P_ref;
  d ← subtract P r;
  mret (scalar_mul k d).

(** ** The values the transform computes, named *)

(** The array bound to [P_ref] by line 79 for an input with a time axis. *)
Definition reference (P : ndarray) (n : nat) (rest : list nat) : ndarray :=
  mk_ndarray rest
    (map (fun j => nanmean_lane (lane P n (size rest) j)) (seq 0 (size rest))).

(** The time series of [P] at the location [idx]. *)
Definition column (P : ndarray) (n : nat) (idx : list nat) : list float64 :=
  map (fun t => item P (t :: idx)) (seq 0 n).

(** The value returned for an input with a time axis and at least two
    further axes. *)
Definition ibe_of (P : ndarray) (n : nat) (rest : list nat) (k : Qc) : ndarray :=
  let sh := n :: rest in
  scalar_mul k
    (mk_ndarray sh
       (zip_with fsub
          (data (broadcast_to P sh))
          (data (broadcast_to (mk_ndarray (1 :: rest) (data (reference P n rest))) sh)))).

(** ** The mean that leaves out the not-a-number entries, as the
       specification words it

    This definition follows the words of the specification, not numpy;
    [nanmean_lane_spec] below relates the two. *)

Fixpoint numbers (l : list float64) : list Qc :=
  match l with
  | [] => []
  | NaN :: l' => numbers l'
  | Num q :: l' => q :: numbers l'
  end.

Definition mean_excluding_nan (l : list float64) : float64 :=
  match numbers l with
  | [] => NaN
  | q :: qs => Num (Qc_sum (q :: qs) / Qc_of_Z (Z.of_nat (length (q :: qs))))
  end.

(** [v + c] on a cell. *)
Definition shift (c : Qc) (v : float64) : float64 := fadd v (Num c).

(** The constant that scales the pressure anomaly. *)
Definition scale (rho g : Qc) : Qc := (-1 / (rho * g))%Qc.

(** ** Sample inputs *)

Definition Pa (z : Z) : float64 := Num (Qc_of_Z z).

(** The 2 x 2 x 2 scenario of the specification: 101300 Pa at the first
    time step and 101500 Pa at the second, at every location. *)
Definition P_sample : ndarray :=
  mk_ndarray [2; 2; 2]
    [Pa 101300; Pa 101300; Pa 101300; Pa 101300;
     Pa 101500; Pa 101500; Pa 101500; Pa 101500].

(** A field with a missing cell and an all-missing location. *)
Definition P_gaps : ndarray :=
  mk_ndarray [2; 1; 3]
    [Pa 101300; NaN; NaN;
     Pa 101500; Pa 101100; NaN].

(** Arrays of four, two, one and no axes. *)
Definition P_4d : ndarray :=
  mk_ndarray [2; 1; 1; 2] [Pa 3; NaN; Pa 5; NaN].

Definition P_2d : ndarray :=
  mk_ndarray [2; 2] [Pa 3; NaN; Pa 5; NaN].

Definition P_1d : ndarray := mk_ndarray [2] [Pa 3; Pa 5].

Definition P_0d : ndarray := mk_ndarray [] [Pa 3].

(** The constant reference pressure of the docstring, 1013.25 mbar in Pa. *)
Definition P_ref_constant : pyval := PyFloat (Qc_of_Z 101325).

(** ** Comparing arrays *)

Definition ndarray_eqb (a b : ndarray) : bool :=
  bool_decide (shape a = shape b) &&
  (length (data a) =? length (data b)) &&
  forallb (fun p => float64_eqb p.1 p.2) (zip (data a) (data b)).

(** [r] is a normal return of an array equal to [a]. *)
Definition returns (r : result ndarray) (a : ndarray) : bool :=
  match r with
  | Ok h => ndarray_eqb h a
  | Err _ => false
  end.

(** ** [np.sum], [np.mean], [np.isnan] *)

(** [np.sum] and [np.mean] of a lane.  Addition is exact here, so the
    order of the reduction is immaterial. *)
Definition fsum (l : list float64) : float64 := fold_right fadd (Num 0%Qc) l.

Definition np_mean (l : list float64) : float64 :=
  match length l with
  | O => NaN
  | S _ => fdiv_scalar (fsum l) (Qc_of_Z (Z.of_nat (length l)))
  end.

(** [np.isnan(a).any()] *)
Definition has_nan (a : ndarray) : bool := existsb isnan (data a).

(** ** File names: [str.startswith], [str.replace] *)

Fixpoint starts_with (old s : string) : bool :=
  match old, s with
  | EmptyString, _ => true
  | String _ _, EmptyString => false
  | String a old', String b s' => Ascii.eqb a b && starts_with old' s'
  end.

(** [new] before every character and at the end: what [str.replace]
    gives for an empty [old]. *)
Fixpoint intersperse (new s : string) : string :=
  match s with
  | EmptyString => new
  | String c s' => new +:+ String c (intersperse new s')
  end.

(** The scan of [s.replace(old, new)] for a non-empty [old]: leftmost
    occurrences, not overlapping; [skip] counts the characters of a
    replaced occurrence still to be passed over. *)
Fixpoint replace_scan (old new : string) (skip : nat) (s : string) : string :=
  match s with
  | EmptyString => EmptyString
  | String c s' =>
      match skip with
      | S k => replace_scan old new k s'
      | O =>
          if starts_with old s
          then new +:+ replace_scan old new (String.length old - 1) s'
          else String c (replace_scan old new 0 s')
      end
  end.

Definition str_replace (old new s : string) : string :=
  match old with
  | EmptyString => intersperse new s
  | String _ _ => replace_scan old new 0 s
  end.

(** Line 169. *)
Definition outfile_name (infile : string) : string :=
  str_replace ".nc" ".h5" (str_replace "SLP_" "IBE_" infile).

(** [old] occurs somewhere in [s]. *)
Fixpoint occurs (old s : string) : bool :=
  starts_with old s ||
  match s with
  | EmptyString => false
  | String _ s' => occurs old s'
  end.

(** [old] occurs in [a +:+ b] at a position inside [a]. *)
Fixpoint occurs_from (old a b : string) : bool :=
  match a with
  | EmptyString => false
  | String _ a' => starts_with old (a +:+ b) || occurs_from old a' b
  end.

Fixpoint char_in (c : Ascii.ascii) (s : string) : bool :=
  match s with
  | EmptyString => false
  | String x s' => Ascii.eqb c x || char_in c s'
  end.

Definition tail (s : string) : string :=
  match s with
  | EmptyString => EmptyString
  | String _ s' => s'
  end.

(** *** The reading of the specification: a prefix and an extension

    These follow the words of the specification, not the source. *)

Fixpoint ends_with (old s : string) : bool :=
  String.eqb old s ||
  match s with
  | EmptyString => false
  | String _ s' => ends_with old s'
  end.

Definition replace_prefix (old new s : string) : string :=
  if starts_with old s
  then new +:+ String.substring (String.length old) (String.length s - String.length old) s
  else s.

Definition replace_extension (old new s : string) : string :=
  if ends_with old s
  then String.substring 0 (String.length s - String.length old) s +:+ new
  else s.

(** The output name as the specification words it: the [SLP_] prefix
    becomes [IBE_], the [.nc] extension becomes [.h5], the rest stays. *)
Definition spec_outfile_name (infile : string) : string :=
  replace_extension ".nc" ".h5" (replace_prefix "SLP_" "IBE_" infile).

(** ** The driver

    Files are modelled by their content.  A NetCDF file is the table of its
    variables, each with its decoded values (what [var[:]] returns) and its
    attributes; an HDF5 file is the table of its datasets.  The gzip
    compression and the chunking asked of h5py are lossless and leave the
    stored arrays as they are; printing is not modelled, only the
    exceptions of the expressions that are printed. *)

Definition SLPFILE : string := "SLP_antarctica_3h_19900101_20170331.nc".
Definition XIBE : string := "longitude".
Definition YIBE : string := "latitude".
Definition TIBE : string := "time".
Definition ZIBE : string := "msl".

Record nc_variable := mk_variable {
  var_value : ndarray;
  var_attrs : gmap string Qc
}.

Inductive file :=
  | NetCDF (variables : gmap string nc_variable)
  | HDF5 (datasets : gmap string ndarray).

(** [sys.argv[1] if sys.argv[1:] else SLPFILE] *)
Definition input_path (argv : list string) : string :=
  match argv with
  | _ :: a :: _ => a
  | _ => SLPFILE
  end.

(** [Dataset(path, "r")]: a missing file is refused.  netCDF4 opens a
    plain HDF5 file as well: its datasets are then the variables, and they
    carry none of the attributes of a NetCDF variable. *)
Definition open_dataset (fs : gmap string file) (path : string)
  : result (gmap string nc_variable) :=
  match fs !! path with
  | Some (NetCDF vars) => Ok vars
  | Some (HDF5 dsets) => Ok ((fun a => mk_variable a ∅) <$> dsets)
  | None => Err FileNotFoundError
  end.

(** [ds.variables[name]] *)
Definition variable (ds : gmap string nc_variable) (name : string)
  : result nc_variable :=
  of_option KeyError (ds !! name).

(** [getattr(var, name)] *)
Definition get_attr (v : nc_variable) (name : string) : result Qc :=
  of_option AttributeError (var_attrs v !! name).

(** [np.diff(a)] is only printed; it raises on a 0-dimensional array. *)
Definition np_diff_check (a : ndarray) : result unit :=
  if ndim a =? 0 then Err ValueError else Ok tt.

(** [f.create_dataset(name, data=a, **kw)] *)
Definition create_dataset (f : gmap string ndarray) (name : string) (a : ndarray)
  : result (gmap string ndarray) :=
  match f !! name with
  | Some _ => Err ValueError
  | None => Ok (<[name := a]> f)
  end.

(** [main()]: the file system after the run.  The block under [if 0:]
    never runs and has no counterpart here; [ds["msl"]] is the variable
    [msl] looked up once more; the output file is opened with mode ["w"],
    so it starts empty.  The variable [msl] is taken without masked cells,
    so that the array numpy makes of it on lines 79 and 80 is the array of
    its decoded values.  The table of files has no directories and no
    locks: a run that ends here may in fact stop at line 171 when the
    directory of the output path is missing or the container refuses to
    be opened for writing; what is proved of a completed run is not
    touched by that. *)
Definition main (argv : list string) (fs : gmap string file)
  : result (gmap string file) :=
  let infile := input_path argv in
  ds ← open_dataset fs infile;
  lon ← var_value <$> variable ds XIBE;
  lat ← var_value <$> variable ds YIBE;
  time ← var_value <$> variable ds TIBE;
  msl ← variable ds ZIBE;
  msl' ← variable ds "msl";
  _ ← get_attr msl' "scale_factor";
  _ ← get_attr msl' "add_offset";
  _ ← get_attr msl' "missing_value";
  _ ← np_diff_check lon;
  _ ← np_diff_check lat;
  _ ← np_diff_check time;
  ibe ← slp_to_ibe (var_value msl) rho_default g_default PyNone;
  let outfile := outfile_name infile in
  f ← create_dataset ∅ "lon" lon;
  f ← create_dataset f "lat" lat;
  f ← create_dataset f "time" time;
  f ← create_dataset f "ibe" ibe;
  mret (<[outfile := HDF5 f]> fs).

(** A small input file: a 2 x 2 grid at two time steps. *)
Definition coordinate (zs : list Z) : ndarray :=
  mk_ndarray [length zs] (map (fun z => Num (Qc_of_Z z)) zs).

Definition msl_attrs : gmap string Qc :=
  {[ "scale_factor" := Q2Qc (1 # 4);
     "add_offset" := Qc_of_Z 100000;
     "missing_value" := Qc_of_Z (-32767) ]}.

Definition sample_dataset : gmap string nc_variable :=
  {[ "longitude" := mk_variable (coordinate [297; 298]%Z) ∅;
     "latitude" := mk_variable (coordinate [-67; -68]%Z) ∅;
     "time" := mk_variable (coordinate [937896; 937899]%Z) ∅;
     "msl" := mk_variable P_sample msl_attrs ]}.

Definition sample_fs : gmap string file :=
  {[ "SLP_sample.nc" := NetCDF sample_dataset ]}.

Definition sample_argv : list string := ["slp2ibe.py"; "SLP_sample.nc"].

Definition sample_fs_after : gmap string file :=
  match main sample_argv sample_fs with
  | Ok fs' => fs'
  | Err _ => sample_fs
  end.

(** ** The transform over binary64 cells

    The exact cells above leave rounding out.  Here the same two lines are
    read over the kernel's binary64 numbers, with the operations of IEEE
    754 (round to nearest even), so that the effect of rounding on a
    concrete input can be computed.  Shapes, offsets and broadcasting are
    those of the exact model; only the cells and their arithmetic differ.
    The sum along the first axis is taken cell after cell in the order of
    the axis, which is how numpy reduces an axis that is not the fastest
    one, and any axis of fewer than eight cells. *)

Record ndarray64 := mk_ndarray64 {
  shape64 : list nat;
  data64 : list float
}.

Definition item64 (a : ndarray64) (idx : list nat) : float :=
  nth (ravel (shape64 a) idx) (data64 a) nan.

Definition replace_nan64 (v : float) : float :=
  if is_nan v then 0%float else v.

Definition sum64 (l : list float) : float :=
  match l with
  | [] => 0%float
  | v :: l' => fold_left PrimFloat.add l' v
  end.

(** The count of a lane as a binary64 number (exact below [2^53]). *)
Fixpoint float_of_nat (n : nat) : float :=
  match n with
  | O => 0%float
  | S n' => (float_of_nat n' + 1)%float
  end.

Definition count_numbers64 (l : list float) : nat :=
  length (filter (fun v => negb (is_nan v)) l).

(** Sum over count; a lane with no number gives 0/0, not-a-number. *)
Definition nanmean_lane64 (l : list float) : float :=
  (sum64 (map replace_nan64 l) / float_of_nat (count_numbers64 l))%float.

Definition lane64 (a : ndarray64) (n m j : nat) : list float :=
  map (fun i => nth (i * m + j) (data64 a) nan) (seq 0 n).

Definition nanmean_axis0_64 (a : ndarray64) : result ndarray64 :=
  match shape64 a with
  | [] => Ok (mk_ndarray64 [] [nanmean_lane64 (data64 a)])
  | n :: rest =>
      let m := size rest in
      Ok (mk_ndarray64 rest
            (map (fun j => nanmean_lane64 (lane64 a n m j)) (seq 0 m)))
  end.

Definition index_newaxis_2_64 (a : ndarray64) : result ndarray64 :=
  if length (shape64 a) <? 2 then Err IndexError
  else Ok (mk_ndarray64 (1 :: shape64 a) (data64 a)).

Definition broadcast_to64 (a : ndarray64) (sh : list nat) : ndarray64 :=
  mk_ndarray64 sh
    (map (fun idx => item64 a (source_index (shape64 a) idx)) (indices sh)).

Definition subtract64 (a b : ndarray64) : result ndarray64 :=
  match broadcast_shapes (shape64 a) (shape64 b) with
  | None => Err ValueError
  | Some sh =>
      Ok (mk_ndarray64 sh (zip_with PrimFloat.sub (data64 (broadcast_to64 a sh))
                                                  (data64 (broadcast_to64 b sh))))
  end.

Definition scalar_mul64 (k : float) (a : ndarray64) : ndarray64 :=
  mk_ndarray64 (shape64 a) (map (PrimFloat.mul k) (data64 a)).

Definition mul_scalar64 (a : ndarray64) (k : float) : ndarray64 :=
  mk_ndarray64 (shape64 a) (map (fun v => (v * k)%float) (data64 a)).

Definition div_scalar64 (a : ndarray64) (k : float) : ndarray64 :=
  mk_ndarray64 (shape64 a) (map (fun v => (v / k)%float) (data64 a)).

Definition add_scalar64 (a : ndarray64) (c : float) : ndarray64 :=
  mk_ndarray64 (shape64 a) (map (fun v => (v + c)%float) (data64 a)).

(** [x / y] on Python floats: a zero divisor raises, the product of two
    tiny factors that rounds to zero included. *)
Definition py_div64 (x y : float) : result float :=
  if (y =? 0)%float then Err ZeroDivisionError else Ok (x / y)%float.

(** Lines 79 and 80 over binary64 cells. *)
Definition slp_to_ibe64 (P : ndarray64) (rho g : float) (P_ref : pyval)
  : result ndarray64 :=
  P_ref ← nanmean_axis0_64 P;
  k ← py_div64 (-1)%float (rho * g)%float;
  r ← index_newaxis_2_64 P_ref;
  d ← subtract64 P r;
  mret (scalar_mul64 k d).

(** [a == b] cell by cell, as IEEE 754 compares. *)
Definition cells_equal64 (a b : ndarray64) : list bool :=
  zip_with PrimFloat.eqb (data64 a) (data64 b).

(** The defaults, 1028.0 and 9.80665, and the sample of the specification
    as binary64 numbers. *)
Definition rho_default64 : float := 1028%float.
Definition g_default64 : float := 0x1.39d013a92a305p+3%float.

Definition P_sample64 : ndarray64 :=
  mk_ndarray64 [2; 2; 2]
    [101300; 101300; 101300; 101300; 101500; 101500; 101500; 101500]%float.

(** Another density and gravity: 1025 and 9.81. *)
Definition rho_other64 : float := 1025%float.
Definition g_other64 : float := 0x1.39eb851eb851fp+3%float.

(** [h2 * (rho2 * g2) / (rho * g)], the right-hand side of the scaling
    law, as Python evaluates it. *)
Definition scaled_back64 (h2 : ndarray64) (rho g rho2 g2 : float) : ndarray64 :=
  div_scalar64 (mul_scalar64 h2 (rho2 * g2)%float) (rho * g)%float.

(** One tenth, as binary64 has it. *)
Definition tenth64 : float := 0x1.999999999999ap-4%float.

(** A field with a missing cell, and one series of three steps. *)
Definition P_gaps64 : ndarray64 :=
  mk_ndarray64 [2; 1; 2] [101300; nan; 101500; 101100]%float.

Definition P_series64 : ndarray64 :=
  mk_ndarray64 [3; 1; 1] [101300; 101500; 101325]%float.

(** ** The test block under [if 0:] (lines 107-151)

    The block never runs.  Its expressions that compute are modelled here:
    the nearest-index search, the extraction of the series of one grid
    cell and the correction of that series. *)

(** [np.abs] on a cell. *)
Definition fabs (v : float64) : float64 :=
  match v with
  | NaN => NaN
  | Num q => Num (Qcabs.Qcabs q)
  end.

(** [a < b] on cells: false as soon as one is not-a-number. *)
Definition flt (a b : float64) : bool :=
  match a, b with
  | Num x, Num y => match (x ?= y)%Qc with Lt => true | _ => false end
  | _, _ => false
  end.

(** The scan of [np.argmin]: the first of the smallest cells, or the
    first not-a-number cell when there is one.  [best] is the index kept so
    far, [bv] its cell, [i] the index of the head of [l]. *)
Fixpoint argmin_scan (best : nat) (bv : float64) (i : nat) (l : list float64) : nat :=
  match l with
  | [] => best
  | v :: l' =>
      if isnan bv then best
      else if isnan v || flt v bv then argmin_scan i v (S i) l'
      else argmin_scan best bv (S i) l'
  end.

(** [a.argmin()]: an index into the flattened array; an empty array is
    refused. *)
Definition argmin (a : ndarray) : result nat :=
  match data a with
  | [] => Err ValueError
  | v :: l => Ok (argmin_scan 0 v 1 l)
  end.

Definition np_abs (a : ndarray) : ndarray :=
  mk_ndarray (shape a) (map fabs (data a)).

(** [a - c] for an array and a Python float. *)
Definition sub_scalar (a : ndarray) (c : Qc) : ndarray :=
  mk_ndarray (shape a) (map (fun v => fsub v (Num c)) (data a)).

(** Line 116: [find_nearest = lambda arr, val: (np.abs(arr - val)).argmin()] *)
Definition find_nearest (arr : ndarray) (val : Qc) : result nat :=
  argmin (np_abs (sub_scalar arr val)).

(** The distance of cell [j] of [arr] to [val], in buffer order. *)
Definition distance (arr : ndarray) (val : Qc) (j : nat) : Qc :=
  Qcabs.Qcabs (replace_nan (nth j (data arr) NaN) - val).

(** [msl[:, i, j]]: the first axis whole, the second and third at [i] and
    [j], the further axes (if any) whole. *)
Definition series_at (a : ndarray) (i j : nat) : result ndarray :=
  match shape a with
  | T :: Y :: X :: rest =>
      if (i <? Y) && (j <? X)
      then Ok (mk_ndarray (T :: rest)
                 (flat_map (fun t => map (fun idx => item a (t :: i :: j :: idx))
                                         (indices rest))
                           (seq 0 T)))
      else Err IndexError
  | _ => Err IndexError
  end.

(** [a - m] for an array and a numpy scalar. *)
Definition sub_cell (a : ndarray) (m : float64) : ndarray :=
  mk_ndarray (shape a) (map (fun v => fsub v m) (data a)).

(** Lines 123 and 139:
    [p = (-1 / (1028.0 * 9.80665)) * (p - np.mean(p))] *)
Definition test_correction (p : ndarray) : result ndarray :=
  k ← py_div (-1)%Qc (Qc_of_Z 1028 * Q2Qc (980665 # 100000))%Qc;
  mret (scalar_mul k (sub_cell p (np_mean (data p)))).

(** * Part II: properties *)

(** ** Lists read by position *)

Section nth_lemmas.
Context {A B C : Type}.

Lemma nth_map_default (f : A -> B) (l : list A) i d d' :
  i < length l -> nth i (map f l) d' = f (nth i l d).
Proof.
  revert i. induction l as [|a l IH]; intros [|i] Hi; simpl in *; try lia; auto.
  apply IH. lia.
Qed.

Lemma nth_zip_with (f : A -> B -> C) l1 l2 i d1 d2 d :
  i < length l1 -> i < length l2 ->
  nth i (zip_with f l1 l2) d = f (nth i l1 d1) (nth i l2 d2).
Proof.
  revert l2 i. induction l1 as [|a l1 IH]; intros [|b l2] [|i] H1 H2;
    simpl in *; try lia; auto.
  apply IH; lia.
Qed.

(** Position [i * m + r] of a concatenation of chunks of length [m] is
    position [r] of chunk [i]. *)
Lemma nth_flat_map_chunks (f : A -> list B) m (l : list A) i r d a0 :
  (forall a, length (f a) = m) -> i < length l -> r < m ->
  nth (i * m + r) (flat_map f l) d = nth r (f (nth i l a0)) d.
Proof.
  intros Hf. revert i. induction l as [|a l IH]; intros i Hi Hr; simpl in *.
  - lia.
  - destruct i as [|i]; simpl.
    + rewrite app_nth1; [done | rewrite Hf; lia].
    + rewrite app_nth2; rewrite Hf; [|lia].
      replace (m + i * m + r - m) with (i * m + r) by lia.
      apply IH; lia.
Qed.

Lemma length_flat_map_chunks (f : A -> list B) m (l : list A) :
  (forall a, length (f a) = m) -> length (flat_map f l) = length l * m.
Proof.
  intros Hf. induction l as [|a l IH]; simpl; [done|].
  rewrite length_app, Hf, IH. lia.
Qed.
End nth_lemmas.

(** ** Shapes, offsets and indices *)

Lemma in_bounds_cons d sh i idx :
  in_bounds (d :: sh) (i :: idx) = true <-> i < d /\ in_bounds sh idx = true.
Proof. simpl. rewrite andb_true_iff, Nat.ltb_lt. tauto. Qed.

Lemma in_bounds_length sh idx :
  in_bounds sh idx = true -> length idx = length sh.
Proof.
  revert idx. induction sh as [|d sh IH]; intros [|i idx] H; simpl in *;
    try discriminate; auto.
  apply andb_true_iff in H as [_ H]. f_equal. auto.
Qed.

Lemma ravel_lt sh idx :
  in_bounds sh idx = true -> ravel sh idx < size sh.
Proof.
  revert idx. induction sh as [|d sh IH]; intros [|i idx] H; simpl in *;
    try discriminate; try lia.
  apply andb_true_iff in H as [Hi H]. apply Nat.ltb_lt in Hi.
  specialize (IH _ H). fold (size sh). nia.
Qed.

Lemma length_indices sh : length (indices sh) = size sh.
Proof.
  induction sh as [|d sh IH]; simpl; [done|].
  rewrite (length_flat_map_chunks _ (size sh)).
  - rewrite length_seq. done.
  - intros i. rewrite length_map. done.
Qed.

Lemma nth_indices sh idx :
  in_bounds sh idx = true -> nth (ravel sh idx) (indices sh) [] = idx.
Proof.
  revert idx. induction sh as [|d sh IH]; intros [|i idx] H; simpl in *;
    try discriminate; auto.
  apply andb_true_iff in H as [Hi H]. apply Nat.ltb_lt in Hi.
  rewrite (nth_flat_map_chunks _ (size sh) _ _ _ _ 0).
  - rewrite seq_nth by done. simpl.
    rewrite (nth_map_default _ _ _ []).
    + rewrite IH; done.
    + rewrite length_indices. by apply ravel_lt.
  - intros j. rewrite length_map. apply length_indices.
  - rewrite length_seq. done.
  - by apply ravel_lt.
Qed.

(** Reading a broadcast array reads the operand at the source index. *)
Lemma item_broadcast_to a sh idx :
  in_bounds sh idx = true ->
  item (broadcast_to a sh) idx = item a (source_index (shape a) idx).
Proof.
  intros H. unfold item at 1, broadcast_to. simpl.
  rewrite (nth_map_default _ _ _ []).
  - rewrite nth_indices; done.
  - rewrite length_indices. by apply ravel_lt.
Qed.

Lemma length_broadcast_to a sh : length (data (broadcast_to a sh)) = size sh.
Proof. unfold broadcast_to. cbn [data]. rewrite length_map. apply length_indices. Qed.

Lemma source_index_same_length sh idx :
  length idx = length sh ->
  source_index sh idx = zip_with (fun d i => if d =? 1 then 0 else i) sh idx.
Proof.
  intros H. unfold source_index. rewrite H, Nat.sub_diag. done.
Qed.

Lemma source_index_id sh idx :
  in_bounds sh idx = true -> source_index sh idx = idx.
Proof.
  intros H. rewrite source_index_same_length by by apply in_bounds_length.
  revert idx H. induction sh as [|d sh IH]; intros [|i idx] H; simpl in *;
    try discriminate; auto.
  apply andb_true_iff in H as [Hi H]. apply Nat.ltb_lt in Hi.
  rewrite IH by done. f_equal.
  destruct (Nat.eqb_spec d 1); lia.
Qed.

Lemma source_index_newaxis rest t idx :
  in_bounds rest idx = true -> source_index (1 :: rest) (t :: idx) = 0 :: idx.
Proof.
  intros H. rewrite source_index_same_length.
  - simpl. f_equal. rewrite <- source_index_same_length by by apply in_bounds_length.
    by apply source_index_id.
  - simpl. f_equal. by apply in_bounds_length.
Qed.

Lemma broadcast_dim_refl d : broadcast_dim d d = Some d.
Proof. unfold broadcast_dim. rewrite Nat.eqb_refl. done. Qed.

Lemma broadcast_dim_one d : broadcast_dim d 1 = Some d.
Proof.
  unfold broadcast_dim. destruct (Nat.eqb_spec d 1); [congruence|]. done.
Qed.

Lemma broadcast_rev_lead l n :
  broadcast_rev (l ++ [n]) (l ++ [1]) = Some (l ++ [n]).
Proof.
  induction l as [|d l IH]; simpl.
  - rewrite broadcast_dim_one. done.
  - rewrite broadcast_dim_refl, IH. done.
Qed.

(** A leading axis of length one broadcasts against any leading axis. *)
Lemma broadcast_shapes_lead n rest :
  broadcast_shapes (n :: rest) (1 :: rest) = Some (n :: rest).
Proof.
  unfold broadcast_shapes. simpl. rewrite broadcast_rev_lead. simpl.
  rewrite rev_app_distr, rev_involutive. done.
Qed.

(** ** The transform, step by step *)

Lemma Qc_eqb_false (x y : Qc) : x <> y -> Qc_eqb x y = false.
Proof.
  intros H. unfold Qc_eqb. destruct (Qeq_bool x y) eqn:E; [|done].
  exfalso. apply H, Qc_is_canon, Qeq_bool_iff, E.
Qed.

Lemma Qc_eqb_true (x y : Qc) : Qc_eqb x y = true <-> x = y.
Proof.
  unfold Qc_eqb. rewrite Qeq_bool_iff. split.
  - apply Qc_is_canon.
  - intros ->. reflexivity.
Qed.

Lemma py_div_ok (x y : Qc) : y <> 0%Qc -> py_div x y = Ok (x / y)%Qc.
Proof. intros H. unfold py_div. rewrite Qc_eqb_false; done. Qed.

Lemma py_div_zero (x : Qc) : py_div x 0%Qc = Err ZeroDivisionError.
Proof. reflexivity. Qed.

Lemma rho_g_nonzero (rho g : Qc) : (0 < rho)%Qc -> (0 < g)%Qc -> (rho * g)%Qc <> 0%Qc.
Proof.
  intros Hr Hg E. pose proof (Qcmult_pos_pos _ _ Hr Hg) as H.
  rewrite E in H. by apply Qclt_not_eq in H.
Qed.

Lemma nanmean_axis0_cons P n rest :
  shape P = n :: rest -> nanmean_axis0 P = Ok (reference P n rest).
Proof. intros H. unfold nanmean_axis0. rewrite H. done. Qed.

Lemma nanmean_axis0_scalar P :
  shape P = [] -> nanmean_axis0 P = Ok (mk_ndarray [] [nanmean_lane (data P)]).
Proof. intros H. unfold nanmean_axis0. rewrite H. done. Qed.

(** Line 79 raises nothing and takes one axis away. *)
Lemma nanmean_axis0_total P :
  exists m, nanmean_axis0 P = Ok m /\ ndim m = ndim P - 1.
Proof.
  unfold nanmean_axis0, ndim. destruct (shape P) as [|n rest]; eexists;
    (split; [reflexivity|]); simpl; lia.
Qed.

Lemma lane_column P n rest idx :
  shape P = n :: rest ->
  lane P n (size rest) (ravel rest idx) = column P n idx.
Proof. intros H. unfold lane, column, item. rewrite H. done. Qed.

Lemma item_reference P n rest idx :
  shape P = n :: rest -> in_bounds rest idx = true ->
  item (reference P n rest) idx = nanmean_lane (column P n idx).
Proof.
  intros HP H. unfold item, reference. simpl.
  pose proof (ravel_lt _ _ H) as Hlt.
  rewrite (nth_map_default _ _ _ 0) by by rewrite length_seq.
  rewrite seq_nth by done. simpl. by rewrite (lane_column _ _ _ _ HP).
Qed.

Lemma slp_to_ibe_run P n rest rho g P_ref :
  shape P = n :: rest -> 2 <= length rest -> (rho * g)%Qc <> 0%Qc ->
  slp_to_ibe P rho g P_ref = Ok (ibe_of P n rest (-1 / (rho * g))%Qc).
Proof.
  intros HP Hrest Hk. unfold slp_to_ibe.
  rewrite (nanmean_axis0_cons _ _ _ HP). simpl.
  rewrite (py_div_ok _ _ Hk). simpl.
  unfold index_newaxis_2, ndim. simpl.
  destruct (Nat.ltb_spec (length rest) 2); [lia|]. simpl.
  unfold subtract. rewrite HP. simpl shape.
  rewrite broadcast_shapes_lead. done.
Qed.

Lemma shape_ibe_of P n rest k : shape (ibe_of P n rest k) = n :: rest.
Proof. done. Qed.

Lemma wf_ibe_of P n rest k : wf (ibe_of P n rest k).
Proof.
  unfold wf, ibe_of, scalar_mul. cbn [data shape].
  rewrite length_map, length_zip_with, !length_broadcast_to. lia.
Qed.

Lemma item_ibe_of P n rest k t idx :
  shape P = n :: rest -> t < n -> in_bounds rest idx = true ->
  item (ibe_of P n rest k) (t :: idx)
  = fmul (Num k) (fsub (item P (t :: idx)) (nanmean_lane (column P n idx))).
Proof.
  intros HP Ht Hidx.
  assert (Hb : in_bounds (n :: rest) (t :: idx) = true) by by apply in_bounds_cons.
  pose proof (ravel_lt _ _ Hb) as Hlt.
  unfold item at 1, ibe_of, scalar_mul. cbn [shape data].
  set (sh := n :: rest) in *.
  set (r := mk_ndarray (1 :: rest) _).
  rewrite (nth_map_default _ _ _ NaN)
    by (rewrite length_zip_with, !length_broadcast_to; lia).
  rewrite (nth_zip_with _ _ _ _ NaN NaN) by (rewrite length_broadcast_to; lia).
  f_equal. f_equal.
  - change (item (broadcast_to P sh) (t :: idx) = item P (t :: idx)).
    rewrite item_broadcast_to by done. rewrite HP. by rewrite source_index_id.
  - change (item (broadcast_to r sh) (t :: idx) = nanmean_lane (column P n idx)).
    rewrite item_broadcast_to by done. subst r. simpl shape.
    rewrite source_index_newaxis by done.
    rewrite <- (item_reference P n rest idx HP Hidx).
    unfold item. simpl. done.
Qed.

(** ** The mean of a lane *)

Lemma Qc_sum_replace_nan l : Qc_sum (map replace_nan l) = Qc_sum (numbers l).
Proof.
  induction l as [|[|q] l IH]; simpl; [done| |].
  - rewrite Qcplus_0_l. done.
  - rewrite IH. done.
Qed.

Lemma count_numbers_length l : count_numbers l = length (numbers l).
Proof.
  unfold count_numbers. induction l as [|[|q] l IH]; simpl; auto.
Qed.

(** numpy's masked sum and count compute the mean of the entries that are
    numbers. *)
Lemma nanmean_lane_spec l : nanmean_lane l = mean_excluding_nan l.
Proof.
  unfold nanmean_lane, mean_excluding_nan.
  rewrite Qc_sum_replace_nan, count_numbers_length.
  destruct (numbers l); done.
Qed.

Lemma nanmean_lane_all_nan l :
  Forall (fun v => v = NaN) l -> nanmean_lane l = NaN.
Proof.
  intros H. rewrite nanmean_lane_spec. unfold mean_excluding_nan.
  replace (numbers l) with (@nil Qc); [done|].
  induction H as [|v l -> _ IH]; simpl; done.
Qed.

Lemma column_all_nan P n idx :
  (forall t, t < n -> item P (t :: idx) = NaN) ->
  Forall (fun v => v = NaN) (column P n idx).
Proof.
  intros H. unfold column. apply Forall_forall. intros v Hv.
  apply in_map_iff in Hv as (t & <- & Ht). apply in_seq in Ht. apply H. lia.
Qed.

Lemma in_bounds_2 Y X y x : y < Y -> x < X -> in_bounds [Y; X] [y; x] = true.
Proof.
  intros Hy Hx. simpl. apply Nat.ltb_lt in Hy, Hx. rewrite Hy, Hx. done.
Qed.

(** ** The transform on (time, lat, lon) arrays *)

Section three_dimensional.
Variables (P : ndarray) (T Y X : nat) (rho g : Qc) (P_ref : pyval).
Hypothesis shape_P : shape P = [T; Y; X].
Hypothesis rho_pos : (0 < rho)%Qc.
Hypothesis g_pos : (0 < g)%Qc.

Lemma slp_to_ibe_3d :
  slp_to_ibe P rho g P_ref = Ok (ibe_of P T [Y; X] (scale rho g)).
Proof.
  apply slp_to_ibe_run; [done | simpl; lia | by apply rho_g_nonzero].
Qed.

Lemma item_ibe_3d t y x :
  t < T -> y < Y -> x < X ->
  item (ibe_of P T [Y; X] (scale rho g)) [t; y; x]
  = fmul (Num (scale rho g))
      (fsub (item P [t; y; x]) (nanmean_lane (column P T [y; x]))).
Proof.
  intros Ht Hy Hx. apply item_ibe_of; [done | done | by apply in_bounds_2].
Qed.

Lemma slp_to_ibe_entries :
  exists h, slp_to_ibe P rho g P_ref = Ok h /\
    forall t y x, t < T -> y < Y -> x < X ->
      item h [t; y; x]
      = fmul (Num (scale rho g))
          (fsub (item P [t; y; x]) (mean_excluding_nan (column P T [y; x]))).
Proof.
  eexists. split; [apply slp_to_ibe_3d|].
  intros t y x Ht Hy Hx. rewrite item_ibe_3d by done.
  rewrite nanmean_lane_spec. done.
Qed.
End three_dimensional.

Lemma rho_default_pos : (0 < rho_default)%Qc.
Proof. reflexivity. Qed.

Lemma g_default_pos : (0 < g_default)%Qc.
Proof. reflexivity. Qed.

(** The scenario of the specification: the reference is 101400 Pa
    everywhere, the correction is +100/(1028 * 9.80665) m at the first time
    step and the opposite at the second. *)
Example slp_to_ibe_sample :
  returns (nanmean_axis0 P_sample)
    (mk_ndarray [2; 2] [Pa 101400; Pa 101400; Pa 101400; Pa 101400]) = true /\
  let h := Num (Qc_of_Z 100 / (rho_default * g_default))%Qc in
  let h' := Num (- (Qc_of_Z 100 / (rho_default * g_default)))%Qc in
  returns (slp_to_ibe P_sample rho_default g_default PyNone)
    (mk_ndarray [2; 2; 2] [h; h; h; h; h'; h'; h'; h']) = true.
Proof. split; vm_compute; reflexivity. Qed.

(** C1. For a pressure array [P] with axes (time, lat, lon) and positive
    [rho] and [g], [slp_to_ibe] returns the array whose entry at (t, y, x)
    is [(-1 / (rho * g)) * (P[t,y,x] - P_ref[y,x])], where [P_ref[y,x]] is
    the mean over the time axis of [P[.,y,x]] with the not-a-number
    entries left out (and not-a-number when none is left). *)
Theorem slp_to_ibe_formula (P : ndarray) (T Y X : nat) (rho g : Qc) (P_ref : pyval) :
  shape P = [T; Y; X] -> (0 < rho)%Qc -> (0 < g)%Qc ->
  exists h, slp_to_ibe P rho g P_ref = Ok h /\
    forall t y x, t < T -> y < Y -> x < X ->
      item h [t; y; x]
      = fmul (Num (-1 / (rho * g))%Qc)
          (fsub (item P [t; y; x]) (mean_excluding_nan (column P T [y; x]))).
Proof.
  intros HP Hr Hg. by apply slp_to_ibe_entries.
Qed.

Lemma slp_to_ibe_formula_witness :
  exists h, slp_to_ibe P_gaps rho_default g_default PyNone = Ok h /\
    forall t y x, t < 2 -> y < 1 -> x < 3 ->
      item h [t; y; x]
      = fmul (Num (-1 / (rho_default * g_default))%Qc)
          (fsub (item P_gaps [t; y; x])
                (mean_excluding_nan (column P_gaps 2 [y; x]))).
Proof.
  apply (slp_to_ibe_formula P_gaps 2 1 3 rho_default g_default PyNone);
    reflexivity.
Defined.



(** C3. For a three-dimensional [P] with at least one time step, the
    array returned by [slp_to_ibe] has the shape of [P], axis for axis
    (and as many cells as that shape holds). *)
Theorem slp_to_ibe_shape (P : ndarray) (T Y X : nat) (rho g : Qc) (P_ref : pyval) :
  shape P = [T; Y; X] -> 1 <= T -> (0 < rho)%Qc -> (0 < g)%Qc ->
  exists h, slp_to_ibe P rho g P_ref = Ok h /\ shape h = shape P /\ wf h.
Proof.
  intros HP _ Hr Hg. eexists. split; [by apply slp_to_ibe_3d|].
  split; [by rewrite HP | apply wf_ibe_of].
Qed.

Lemma slp_to_ibe_shape_witness :
  exists h, slp_to_ibe P_sample rho_default g_default PyNone = Ok h /\
    shape h = shape P_sample /\ wf h.
Proof.
  apply (slp_to_ibe_shape P_sample 2 2 2 rho_default g_default PyNone);
    [reflexivity | lia | reflexivity | reflexivity].
Defined.

(** C5. Whatever is passed for [P_ref] (a constant reference pressure
    included), the result is the one of the call with [P_ref = None], and
    it is built from the per-location temporal mean. *)
Theorem slp_to_ibe_ignores_P_ref (P : ndarray) (T Y X : nat) (rho g : Qc) (P_ref : pyval) :
  shape P = [T; Y; X] -> (0 < rho)%Qc -> (0 < g)%Qc ->
  slp_to_ibe P rho g P_ref = slp_to_ibe P rho g PyNone /\
  exists h, slp_to_ibe P rho g P_ref = Ok h /\
    forall t y x, t < T -> y < Y -> x < X ->
      item h [t; y; x]
      = fmul (Num (scale rho g))
          (fsub (item P [t; y; x]) (mean_excluding_nan (column P T [y; x]))).
Proof.
  intros HP Hr Hg. split; [done|].
  by apply slp_to_ibe_entries.
Qed.

Lemma slp_to_ibe_ignores_P_ref_witness :
  slp_to_ibe P_sample rho_default g_default P_ref_constant
  = slp_to_ibe P_sample rho_default g_default PyNone /\
  exists h, slp_to_ibe P_sample rho_default g_default P_ref_constant = Ok h /\
    forall t y x, t < 2 -> y < 2 -> x < 2 ->
      item h [t; y; x]
      = fmul (Num (scale rho_default g_default))
          (fsub (item P_sample [t; y; x])
                (mean_excluding_nan (column P_sample 2 [y; x]))).
Proof.
  apply (slp_to_ibe_ignores_P_ref P_sample 2 2 2 rho_default g_default
           P_ref_constant); reflexivity.
Defined.

(** ** Inputs that are not three-dimensional *)

Lemma slp_to_ibe_few_axes P rho g P_ref :
  ndim P <= 2 -> (rho * g)%Qc <> 0%Qc ->
  (exists m, nanmean_axis0 P = Ok m /\ index_newaxis_2 m = Err IndexError) /\
  slp_to_ibe P rho g P_ref = Err IndexError.
Proof.
  intros H Hk. destruct (nanmean_axis0_total P) as (m & Hm & Hd).
  assert (Hi : index_newaxis_2 m = Err IndexError).
  { unfold index_newaxis_2. destruct (Nat.ltb_spec (ndim m) 2); [done | lia]. }
  split; [eauto|].
  unfold slp_to_ibe. rewrite Hm. simpl.
  rewrite (py_div_ok _ _ Hk). simpl. rewrite Hi. done.
Qed.

(** C4, as the code has it.  There is no check of the number of axes.
    A [P] of no, one or two axes fails with an index error on line 80,
    when the mean that line 79 has computed is indexed with
    [np.newaxis, :, :]: after the mean, not before it.  A [P] of four or
    more axes does not fail: the result has the shape of [P] and its entry
    at [t :: idx] is the scaled anomaly of [P[t, idx]] about the mean of
    [P[., idx]] along the first axis, the not-a-number entries left out. *)
Theorem slp_to_ibe_by_ndim (P : ndarray) (rho g : Qc) (P_ref : pyval) :
  (0 < rho)%Qc -> (0 < g)%Qc ->
  (ndim P <= 2 ->
     (exists m, nanmean_axis0 P = Ok m /\ index_newaxis_2 m = Err IndexError) /\
     slp_to_ibe P rho g P_ref = Err IndexError) /\
  (4 <= ndim P ->
     exists h, slp_to_ibe P rho g P_ref = Ok h /\ shape h = shape P /\ wf h /\
       forall n rest t idx,
         shape P = n :: rest -> t < n -> in_bounds rest idx = true ->
         item h (t :: idx)
         = fmul (Num (-1 / (rho * g))%Qc)
             (fsub (item P (t :: idx)) (mean_excluding_nan (column P n idx)))).
Proof.
  intros Hr Hg. pose proof (rho_g_nonzero _ _ Hr Hg) as Hk. split.
  - intros H. by apply slp_to_ibe_few_axes.
  - intros H. unfold ndim in H.
    destruct (shape P) as [|n rest] eqn:HP; [simpl in H; lia|].
    exists (ibe_of P n rest (scale rho g)).
    split; [apply (slp_to_ibe_run _ _ _ _ _ _ HP); [simpl in H; lia | done]|].
    split; [done|]. split; [apply wf_ibe_of|].
    intros n' rest' t idx [= <- <-] Ht Hidx.
    rewrite item_ibe_of by done. by rewrite nanmean_lane_spec.
Qed.

Lemma slp_to_ibe_by_ndim_witness :
  ((exists m, nanmean_axis0 P_0d = Ok m /\ index_newaxis_2 m = Err IndexError) /\
   slp_to_ibe P_0d rho_default g_default PyNone = Err IndexError) /\
  ((exists m, nanmean_axis0 P_1d = Ok m /\ index_newaxis_2 m = Err IndexError) /\
   slp_to_ibe P_1d rho_default g_default PyNone = Err IndexError) /\
  ((exists m, nanmean_axis0 P_2d = Ok m /\ index_newaxis_2 m = Err IndexError) /\
   slp_to_ibe P_2d rho_default g_default PyNone = Err IndexError) /\
  (exists h, slp_to_ibe P_4d rho_default g_default PyNone = Ok h /\
     shape h = shape P_4d /\ wf h /\
     forall n rest t idx,
       shape P_4d = n :: rest -> t < n -> in_bounds rest idx = true ->
       item h (t :: idx)
       = fmul (Num (-1 / (rho_default * g_default))%Qc)
           (fsub (item P_4d (t :: idx)) (mean_excluding_nan (column P_4d n idx)))).
Proof.
  split; [|split; [|split]].
  - apply (slp_to_ibe_by_ndim P_0d rho_default g_default PyNone);
      [reflexivity | reflexivity | unfold ndim; simpl; lia].
  - apply (slp_to_ibe_by_ndim P_1d rho_default g_default PyNone);
      [reflexivity | reflexivity | unfold ndim; simpl; lia].
  - apply (slp_to_ibe_by_ndim P_2d rho_default g_default PyNone);
      [reflexivity | reflexivity | unfold ndim; simpl; lia].
  - apply (slp_to_ibe_by_ndim P_4d rho_default g_default PyNone);
      [reflexivity | reflexivity | unfold ndim; simpl; lia].
Defined.

(** C4 fails as stated: a four-dimensional array is not rejected, it is
    transformed along its first axis; and the two-dimensional array is
    rejected only once its mean along the first axis has been computed
    (so is the 0-dimensional one, see [slp_to_ibe_0d]). *)
Lemma slp_to_ibe_4d_returns :
  ndim P_4d <> 3 /\
  returns (slp_to_ibe P_4d rho_default g_default PyNone)
    (mk_ndarray [2; 1; 1; 2]
       [Num (Q2Qc (20000 # 196133) * Q2Qc (1 # 1028)); NaN;
        Num (Q2Qc (-20000 # 196133) * Q2Qc (1 # 1028)); NaN]) = true /\
  ndim P_2d <> 3 /\
  returns (nanmean_axis0 P_2d) (mk_ndarray [2] [Pa 4; NaN]) = true /\
  slp_to_ibe P_2d rho_default g_default PyNone = Err IndexError.
Proof.
  split; [discriminate|]. split; [vm_compute; reflexivity|].
  split; [discriminate|]. split; vm_compute; reflexivity.
Qed.

Example slp_to_ibe_1d :
  slp_to_ibe P_1d rho_default g_default PyNone = Err IndexError.
Proof. reflexivity. Qed.

Example slp_to_ibe_0d :
  returns (nanmean_axis0 P_0d) (mk_ndarray [] [Pa 3]) = true /\
  slp_to_ibe P_0d rho_default g_default PyNone = Err IndexError.
Proof. split; vm_compute; reflexivity. Qed.

(** ** Scaling *)

Lemma scale_change (rho g rho2 g2 x : Qc) :
  (rho * g)%Qc <> 0%Qc -> (rho2 * g2)%Qc <> 0%Qc ->
  (scale rho g * x = scale rho2 g2 * x * (rho2 * g2) / (rho * g))%Qc.
Proof.
  intros H1 H2. unfold scale. field.
  repeat split; intros ->; (apply H1; ring) || (apply H2; ring).
Qed.

(** C6, in exact arithmetic.  With the cells and the constants taken as
    exact rationals and no rounding, for positive [rho], [g], [rho2], [g2]
    the two results are related by
    [slp_to_ibe(P, rho, g) = slp_to_ibe(P, rho2, g2) * (rho2*g2) / (rho*g)],
    cell by cell as values (a not-a-number cell on one side is one on the
    other).  Over binary64 the two sides differ by rounding, see
    [slp_to_ibe_scaling_binary64]. *)
Theorem slp_to_ibe_scaling (P : ndarray) (T Y X : nat) (rho g rho2 g2 : Qc) :
  shape P = [T; Y; X] ->
  (0 < rho)%Qc -> (0 < g)%Qc -> (0 < rho2)%Qc -> (0 < g2)%Qc ->
  exists h h2,
    slp_to_ibe P rho g PyNone = Ok h /\
    slp_to_ibe P rho2 g2 PyNone = Ok h2 /\
    h = div_scalar (mul_scalar h2 (rho2 * g2)%Qc) (rho * g)%Qc.
Proof.
  intros HP Hr Hg Hr2 Hg2.
  pose proof (rho_g_nonzero _ _ Hr Hg) as Hk.
  pose proof (rho_g_nonzero _ _ Hr2 Hg2) as Hk2.
  eexists _, _. split; [by apply slp_to_ibe_3d|]. split; [by apply slp_to_ibe_3d|].
  unfold ibe_of, div_scalar, mul_scalar, scalar_mul. cbn [shape data].
  f_equal. rewrite !map_map. apply map_ext. intros [|x]; simpl; [done|].
  f_equal. by apply scale_change.
Qed.

Lemma slp_to_ibe_scaling_witness :
  exists h h2,
    slp_to_ibe P_gaps rho_default g_default PyNone = Ok h /\
    slp_to_ibe P_gaps (Qc_of_Z 1000) (Qc_of_Z 10) PyNone = Ok h2 /\
    h = div_scalar (mul_scalar h2 (Qc_of_Z 1000 * Qc_of_Z 10)%Qc)
          (rho_default * g_default)%Qc.
Proof.
  apply (slp_to_ibe_scaling P_gaps 2 1 3 rho_default g_default
           (Qc_of_Z 1000) (Qc_of_Z 10)); reflexivity.
Defined.

(** ** The temporal mean of the result *)

Lemma Qc_of_nat_S n :
  Qc_of_Z (Z.of_nat (S n)) = (Qc_of_Z (Z.of_nat n) + 1)%Qc.
Proof. by rewrite Nat2Z.inj_succ, <- Z.add_1_r, Z2Qc_inj_add, Z2Qc_inj_1. Qed.

Lemma Qc_of_nat_nonzero n : n <> 0 -> Qc_of_Z (Z.of_nat n) <> 0%Qc.
Proof.
  intros Hn E. rewrite <- Z2Qc_inj_0 in E. apply Z2Qc_inj in E. lia.
Qed.

Lemma numbers_map_Num qs : numbers (map Num qs) = qs.
Proof. induction qs as [|q qs IH]; simpl; [done | by rewrite IH]. Qed.

Lemma nanmean_lane_numbers q qs :
  nanmean_lane (map Num (q :: qs))
  = Num (Qc_sum (q :: qs) / Qc_of_Z (Z.of_nat (length (q :: qs)))).
Proof.
  rewrite nanmean_lane_spec. unfold mean_excluding_nan.
  rewrite numbers_map_Num. done.
Qed.

Lemma all_numbers l :
  existsb isnan l = false -> l = map Num (map replace_nan l).
Proof.
  induction l as [|[|q] l IH]; simpl; intros H; try done.
  f_equal. by apply IH.
Qed.

Lemma fsum_anomalies (k m : Qc) qs :
  fsum (map (fun v => fmul (Num k) (fsub v (Num m))) (map Num qs))
  = Num (k * (Qc_sum qs - Qc_of_Z (Z.of_nat (length qs)) * m))%Qc.
Proof.
  induction qs as [|q qs IH].
  - cbn [map fsum fold_right Qc_sum length]. f_equal.
    change (Z.of_nat 0) with 0%Z. rewrite Z2Qc_inj_0. ring.
  - cbn [map fsum fold_right] in *. fold (fsum (map (fun v => fmul (Num k) (fsub v (Num m))) (map Num qs))).
    rewrite IH. cbn [fmul fsub fadd Qc_sum fold_right length].
    fold (Qc_sum qs). rewrite Qc_of_nat_S. f_equal. ring.
Qed.

(** Anomalies about the mean of a lane of numbers sum to zero. *)
Lemma fsum_centred (k : Qc) q qs :
  fsum (map (fun v => fmul (Num k) (fsub v (nanmean_lane (map Num (q :: qs)))))
            (map Num (q :: qs)))
  = Num 0%Qc.
Proof.
  rewrite nanmean_lane_numbers, fsum_anomalies. f_equal.
  field. by apply Qc_of_nat_nonzero.
Qed.

Lemma existsb_nth_false {A} (f : A -> bool) l i d :
  existsb f l = false -> i < length l -> f (nth i l d) = false.
Proof.
  revert i. induction l as [|a l IH]; intros [|i] H Hi; simpl in *; try lia.
  - by apply orb_false_iff in H as [H _].
  - apply orb_false_iff in H as [_ H]. apply IH; [done | lia].
Qed.

Lemma column_no_nan P n rest idx :
  shape P = n :: rest -> wf P -> has_nan P = false ->
  in_bounds rest idx = true ->
  existsb isnan (column P n idx) = false.
Proof.
  intros HP Hwf Hnan Hidx. unfold column.
  apply not_true_iff_false. intros H. apply existsb_exists in H as (v & Hv & Hv').
  apply in_map_iff in Hv as (t & <- & Ht). apply in_seq in Ht.
  unfold item in Hv'. rewrite (existsb_nth_false _ _ _ _ Hnan) in Hv'; [done|].
  rewrite Hwf, HP. apply ravel_lt. apply in_bounds_cons. split; [lia | done].
Qed.

Lemma column_ibe_of P n rest k idx :
  shape P = n :: rest -> in_bounds rest idx = true ->
  column (ibe_of P n rest k) n idx
  = map (fun v => fmul (Num k) (fsub v (nanmean_lane (column P n idx))))
        (column P n idx).
Proof.
  intros HP Hidx. unfold column at 1 3. rewrite map_map.
  apply map_ext_in. intros t Ht. apply in_seq in Ht.
  apply item_ibe_of; [done | lia | done].
Qed.

Lemma length_column P n idx : length (column P n idx) = n.
Proof. unfold column. by rewrite length_map, length_seq. Qed.

Lemma np_mean_column_ibe_of P n rest k idx :
  shape P = n :: rest -> wf P -> has_nan P = false -> 1 <= n ->
  in_bounds rest idx = true ->
  np_mean (column (ibe_of P n rest k) n idx) = Num 0%Qc.
Proof.
  intros HP Hwf Hnan Hn Hidx.
  pose proof (column_no_nan _ _ _ _ HP Hwf Hnan Hidx) as Hcol.
  unfold np_mean. rewrite length_column.
  destruct n as [|n']; [lia|].
  rewrite (column_ibe_of _ _ _ _ _ HP Hidx).
  rewrite (all_numbers _ Hcol).
  destruct (map replace_nan (column P (S n') idx)) as [|q qs] eqn:E.
  - apply (f_equal length) in E. rewrite length_map, length_column in E. done.
  - rewrite fsum_centred. simpl. f_equal. unfold Qcdiv. ring.
Qed.

(** With no time step the columns are empty and their mean is
    not-a-number, for [np.mean] as for [np.nanmean]. *)
Remark np_mean_no_time_step P rest k idx :
  np_mean (column (ibe_of P 0 rest k) 0 idx) = NaN.
Proof. done. Qed.

(** C7. For a three-dimensional [P] (with at least one time step, as the
    input contract requires) that holds no not-a-number, the mean over
    the time axis of the result is zero at every location.  Arithmetic is
    exact in this model, so zero is met exactly. *)
Theorem slp_to_ibe_mean_zero (P : ndarray) (T Y X : nat) (rho g : Qc) :
  shape P = [T; Y; X] -> wf P -> 1 <= T -> has_nan P = false ->
  (0 < rho)%Qc -> (0 < g)%Qc ->
  exists h, slp_to_ibe P rho g PyNone = Ok h /\
    forall y x, y < Y -> x < X -> np_mean (column h T [y; x]) = Num 0%Qc.
Proof.
  intros HP Hwf HT Hnan Hr Hg. eexists. split; [by apply slp_to_ibe_3d|].
  intros y x Hy Hx.
  apply np_mean_column_ibe_of; [done | done | done | done | by apply in_bounds_2].
Qed.

Lemma slp_to_ibe_mean_zero_witness :
  exists h, slp_to_ibe P_sample rho_default g_default PyNone = Ok h /\
    forall y x, y < 2 -> x < 2 -> np_mean (column h 2 [y; x]) = Num 0%Qc.
Proof.
  apply (slp_to_ibe_mean_zero P_sample 2 2 2 rho_default g_default);
    [reflexivity | reflexivity | lia | reflexivity | reflexivity | reflexivity].
Defined.

(** ** Adding a constant to the pressure field *)

Lemma add_scalar_shift P c :
  add_scalar P c = mk_ndarray (shape P) (map (shift c) (data P)).
Proof. done. Qed.

Lemma nth_shift c l i : nth i (map (shift c) l) NaN = shift c (nth i l NaN).
Proof. change NaN with (shift c NaN) at 1. apply map_nth. Qed.

Lemma numbers_shift c l :
  numbers (map (shift c) l) = map (fun q => (q + c)%Qc) (numbers l).
Proof.
  induction l as [|[|q] l IH]; simpl; [done | done |]. by rewrite IH.
Qed.

Lemma Qc_sum_cons q qs : Qc_sum (q :: qs) = (q + Qc_sum qs)%Qc.
Proof. done. Qed.

Lemma Qc_sum_shift c qs :
  Qc_sum (map (fun q => (q + c)%Qc) qs)
  = (Qc_sum qs + Qc_of_Z (Z.of_nat (length qs)) * c)%Qc.
Proof.
  induction qs as [|q qs IH].
  - cbn [map Qc_sum fold_right length]. change (Z.of_nat 0) with 0%Z.
    rewrite Z2Qc_inj_0. ring.
  - cbn [map length]. rewrite !Qc_sum_cons, IH, Qc_of_nat_S. ring.
Qed.

(** The mean of a shifted lane is the shifted mean. *)
Lemma nanmean_lane_shift c l :
  nanmean_lane (map (shift c) l) = shift c (nanmean_lane l).
Proof.
  rewrite !nanmean_lane_spec. unfold mean_excluding_nan.
  rewrite numbers_shift. destruct (numbers l) as [|q qs]; [done|].
  cbn [map shift fadd].
  change ((q + c)%Qc :: map (fun q0 => (q0 + c)%Qc) qs)
    with (map (fun q0 => (q0 + c)%Qc) (q :: qs)).
  rewrite Qc_sum_shift, length_map. f_equal.
  field. by apply Qc_of_nat_nonzero.
Qed.

Lemma lane_add_scalar P c n m j :
  lane (add_scalar P c) n m j = map (shift c) (lane P n m j).
Proof.
  unfold lane. rewrite map_map. apply map_ext. intros i.
  rewrite add_scalar_shift. cbn [data]. apply nth_shift.
Qed.

Lemma reference_add_scalar P c n rest :
  data (reference (add_scalar P c) n rest)
  = map (shift c) (data (reference P n rest)).
Proof.
  unfold reference. cbn [data]. rewrite map_map. apply map_ext. intros j.
  by rewrite lane_add_scalar, nanmean_lane_shift.
Qed.

Lemma broadcast_to_shift a a' c sh :
  shape a' = shape a -> data a' = map (shift c) (data a) ->
  data (broadcast_to a' sh) = map (shift c) (data (broadcast_to a sh)).
Proof.
  intros Hs Hd. unfold broadcast_to. cbn [data]. rewrite map_map.
  apply map_ext. intros idx. unfold item. rewrite Hs, Hd. apply nth_shift.
Qed.

Lemma fsub_shift c a b : fsub (shift c a) (shift c b) = fsub a b.
Proof. destruct a, b; simpl; try done. f_equal. ring. Qed.

Lemma zip_with_fsub_shift c l1 l2 :
  zip_with fsub (map (shift c) l1) (map (shift c) l2) = zip_with fsub l1 l2.
Proof.
  revert l2. induction l1 as [|a l1 IH]; intros [|b l2]; simpl; try done.
  by rewrite fsub_shift, IH.
Qed.

(** The result does not see a constant added to every cell, missing
    cells or not. *)
Lemma ibe_of_add_scalar P c n rest k :
  shape P = n :: rest ->
  ibe_of (add_scalar P c) n rest k = ibe_of P n rest k.
Proof.
  intros HP. unfold ibe_of. f_equal. f_equal.
  rewrite (broadcast_to_shift P (add_scalar P c) c) by done.
  rewrite (broadcast_to_shift
             (mk_ndarray (1 :: rest) (data (reference P n rest)))
             (mk_ndarray (1 :: rest) (data (reference (add_scalar P c) n rest))) c);
    [| done | cbn [data]; apply reference_add_scalar].
  apply zip_with_fsub_shift.
Qed.

(** C10, in exact arithmetic.  With the cells and the constants taken as
    exact rationals and no rounding, for a three-dimensional [P] with no
    missing value, positive [rho] and [g] and any constant [c],
    [slp_to_ibe(P + c, rho, g)] is [slp_to_ibe(P, rho, g)], and both calls
    return.  Over binary64 [P + c] is rounded and the results differ, see
    [slp_to_ibe_translation_binary64]. *)
Theorem slp_to_ibe_translation (P : ndarray) (T Y X : nat) (rho g c : Qc) :
  shape P = [T; Y; X] -> has_nan P = false -> (0 < rho)%Qc -> (0 < g)%Qc ->
  slp_to_ibe (add_scalar P c) rho g PyNone = slp_to_ibe P rho g PyNone /\
  exists h, slp_to_ibe P rho g PyNone = Ok h.
Proof.
  intros HP _ Hr Hg.
  rewrite (slp_to_ibe_3d (add_scalar P c) T Y X) by done.
  rewrite (slp_to_ibe_3d P T Y X) by done.
  split; [|eauto]. f_equal. by apply ibe_of_add_scalar.
Qed.

Lemma slp_to_ibe_translation_witness :
  slp_to_ibe (add_scalar P_sample (Qc_of_Z 250)) rho_default g_default PyNone
  = slp_to_ibe P_sample rho_default g_default PyNone /\
  exists h, slp_to_ibe P_sample rho_default g_default PyNone = Ok h.
Proof.
  apply (slp_to_ibe_translation P_sample 2 2 2 rho_default g_default
           (Qc_of_Z 250)); reflexivity.
Defined.

(** ** The output file name *)

Lemma append_cons x (a b : string) : String x a +:+ b = String x (a +:+ b).
Proof. done. Qed.

Lemma append_empty_l (b : string) : EmptyString +:+ b = b.
Proof. done. Qed.

Lemma append_assoc (a b c : string) : (a +:+ b) +:+ c = a +:+ (b +:+ c).
Proof.
  induction a as [|x a IH]; [done|]. rewrite !append_cons. by f_equal.
Qed.

Lemma append_empty_r (a : string) : a +:+ EmptyString = a.
Proof.
  induction a as [|x a IH]; [done|]. rewrite append_cons. by f_equal.
Qed.

Lemma starts_with_append old b : starts_with old (old +:+ b) = true.
Proof.
  induction old as [|x old IH]; [done|]. rewrite append_cons. simpl.
  by rewrite Ascii.eqb_refl, IH.
Qed.

Lemma replace_scan_skip old new a b :
  replace_scan old new (String.length a) (a +:+ b) = replace_scan old new 0 b.
Proof.
  induction a as [|x a IH]; [by destruct b|]. rewrite append_cons. done.
Qed.

(** An occurrence at the head is replaced and the scan goes on behind it. *)
Lemma replace_scan_occurrence x old new b :
  replace_scan (String x old) new 0 (String x old +:+ b)
  = new +:+ replace_scan (String x old) new 0 b.
Proof.
  set (o := String x old). change (o +:+ b) with (String x (old +:+ b)).
  cbn [replace_scan]. change (String x (old +:+ b)) with (o +:+ b).
  rewrite starts_with_append. subst o. cbn [String.length].
  replace (S (String.length old) - 1) with (String.length old) by lia.
  f_equal. apply replace_scan_skip.
Qed.

(** Without an occurrence in [a], the scan copies [a]. *)
Lemma replace_scan_copy old new a b :
  occurs_from old a b = false ->
  replace_scan old new 0 (a +:+ b) = a +:+ replace_scan old new 0 b.
Proof.
  induction a as [|x a IH]; intros H; [done|].
  cbn [occurs_from] in H. apply orb_false_iff in H as [H1 H2].
  change (String x a +:+ b) with (String x (a +:+ b)) in *.
  cbn [replace_scan]. rewrite H1, append_cons. f_equal. by apply IH.
Qed.

Lemma replace_scan_empty old new :
  replace_scan old new 0 EmptyString = EmptyString.
Proof. done. Qed.

(** An occurrence that starts in [a] and is not inside [a] runs over the
    first character of what follows; that character is then one of
    [old]. *)
Lemma starts_with_straddle old a c b :
  starts_with old (a +:+ String c b) = true ->
  char_in c old = false -> starts_with old a = true.
Proof.
  revert a. induction old as [|o old IH]; intros a H Hc; [by destruct a|].
  cbn [char_in] in Hc. apply orb_false_iff in Hc as [Hc1 Hc2].
  destruct a as [|x a]; rewrite ?append_cons, ?append_empty_l in H; simpl in *.
  - apply andb_true_iff in H as [H _]. apply Ascii.eqb_eq in H. subst o.
    by rewrite Ascii.eqb_refl in Hc1.
  - apply andb_true_iff in H as [H1 H2]. rewrite H1. simpl. by apply IH.
Qed.

Lemma starts_with_straddle_tail old x a c b :
  starts_with old (String x a +:+ String c b) = true ->
  char_in c (tail old) = false -> starts_with old (String x a) = true.
Proof.
  destruct old as [|o old]; [done|]. rewrite append_cons. simpl. intros H Hc.
  apply andb_true_iff in H as [H1 H2]. rewrite H1. simpl.
  by apply (starts_with_straddle _ _ c b).
Qed.

Lemma occurs_from_none old a c b :
  occurs old a = false -> char_in c (tail old) = false ->
  occurs_from old a (String c b) = false.
Proof.
  intros H Hc. induction a as [|x a IH]; [done|].
  cbn [occurs] in H. apply orb_false_iff in H as [H1 H2].
  cbn [occurs_from]. rewrite (IH H2), orb_false_r.
  destruct (starts_with old (String x a +:+ String c b)) eqn:E; [|done].
  by rewrite (starts_with_straddle_tail _ _ _ _ _ E Hc) in H1.
Qed.

Lemma occurs_append old a b :
  occurs_from old a b = false -> occurs old b = false ->
  occurs old (a +:+ b) = false.
Proof.
  intros H Hb. induction a as [|x a IH]; [done|].
  cbn [occurs_from] in H. apply orb_false_iff in H as [H1 H2].
  change (String x a +:+ b) with (String x (a +:+ b)) in *.
  cbn [occurs]. rewrite H1. simpl. by apply IH.
Qed.

Lemma replace_scan_absent old new s :
  occurs old s = false -> replace_scan old new 0 s = s.
Proof.
  intros H. rewrite <- (append_empty_r s) at 1.
  rewrite replace_scan_copy, replace_scan_empty, append_empty_r; [done|].
  clear new. induction s as [|x s IH]; [done|].
  cbn [occurs] in H. apply orb_false_iff in H as [H1 H2].
  cbn [occurs_from]. rewrite append_empty_r, H1. simpl. by apply IH.
Qed.

(** C8, as the code has it.  The name is rewritten by two substring
    replacements, wherever the substrings stand: first every [SLP_]
    becomes [IBE_], then every [.nc] becomes [.h5].  For a name
    [SLP_<stem>.nc] whose stem holds neither [SLP_] nor [.nc] this is the
    replacement of the prefix and of the extension, and the stem is
    kept. *)
Theorem outfile_name_of_stem (stem : string) :
  occurs "SLP_" stem = false -> occurs ".nc" stem = false ->
  outfile_name ("SLP_" +:+ stem +:+ ".nc") = "IBE_" +:+ stem +:+ ".h5".
Proof.
  intros Hslp Hnc. unfold outfile_name, str_replace.
  rewrite (replace_scan_occurrence _ "LP_" "IBE_" (stem +:+ ".nc")).
  rewrite (replace_scan_absent "SLP_" "IBE_" (stem +:+ ".nc")).
  - rewrite <- (append_assoc "IBE_" stem ".nc").
    rewrite replace_scan_copy.
    + change (replace_scan ".nc" ".h5" 0 ".nc") with ".h5".
      apply append_assoc.
    + apply occurs_from_none; [|done].
      apply occurs_append; done.
  - apply occurs_append; [|done].
    by apply occurs_from_none.
Qed.

Lemma outfile_name_of_stem_witness :
  outfile_name ("SLP_" +:+ "antarctica_3h_19900101_20170331" +:+ ".nc")
  = "IBE_" +:+ "antarctica_3h_19900101_20170331" +:+ ".h5".
Proof.
  apply (outfile_name_of_stem "antarctica_3h_19900101_20170331"); reflexivity.
Defined.

(** C8 fails as stated: in a name of the NCEP/NCAR kind the [.nc] inside
    the name is rewritten too, and an [SLP_] that is not a prefix is
    rewritten as well. *)
Lemma outfile_name_rewrites_inside :
  outfile_name "SLP_ncep.ncar_1990.nc" = "IBE_ncep.h5ar_1990.h5" /\
  spec_outfile_name "SLP_ncep.ncar_1990.nc" = "IBE_ncep.ncar_1990.h5" /\
  outfile_name "SLP_ncep.ncar_1990.nc" <> spec_outfile_name "SLP_ncep.ncar_1990.nc" /\
  outfile_name "era_SLP_1990.nc" = "era_IBE_1990.h5" /\
  spec_outfile_name "era_SLP_1990.nc" = "era_SLP_1990.h5".
Proof. repeat split; try reflexivity. discriminate. Qed.

(** ** The driver *)

Lemma main_sample_completes : main sample_argv sample_fs = Ok sample_fs_after.
Proof. vm_compute. reflexivity. Qed.

Lemma main_sample_output :
  match sample_fs_after !! "IBE_sample.h5" with
  | Some (HDF5 out) =>
      bool_decide (dom out = {[ "lon"; "lat"; "time"; "ibe" ]})
  | _ => false
  end = true.
Proof. vm_compute. reflexivity. Qed.

(** Inversion of a completed step of the result monad. *)
Lemma bind_Ok {A B} (r : result A) (f : A -> result B) b :
  r ≫= f = Ok b -> exists a, r = Ok a /\ f a = Ok b.
Proof. destruct r as [a|e]; simpl; [eauto | done]. Qed.

Lemma fmap_Ok {A B} (g : A -> B) (r : result A) b :
  g <$> r = Ok b -> exists a, r = Ok a /\ b = g a.
Proof. destruct r as [a|e]; simpl; [|done]. intros [= <-]. eauto. Qed.

Lemma variable_Ok ds name v :
  variable ds name = Ok v -> ds !! name = Some v.
Proof. unfold variable. destruct (ds !! name); simpl; [|done]. by intros [= ->]. Qed.

(** A file whose variable [msl] has the attribute [scale_factor] is a
    NetCDF file: the variables of an HDF5 file have no attribute. *)
Lemma open_dataset_netcdf fs path ds v q :
  open_dataset fs path = Ok ds -> variable ds "msl" = Ok v ->
  get_attr v "scale_factor" = Ok q -> fs !! path = Some (NetCDF ds).
Proof.
  unfold open_dataset. destruct (fs !! path) as [[vars|dsets]|]; try done.
  - by intros [= ->].
  - intros [= <-] Hv Hq. apply variable_Ok in Hv.
    rewrite lookup_fmap in Hv.
    destruct (dsets !! "msl") as [a|]; [|done].
    injection Hv as <-. unfold get_attr in Hq. simpl in Hq.
    by rewrite lookup_empty in Hq.
Qed.

Lemma create_dataset_Ok f name a f' :
  create_dataset f name a = Ok f' -> f !! name = None /\ f' = <[name := a]> f.
Proof.
  unfold create_dataset. destruct (f !! name); [done|]. by intros [= <-].
Qed.

(** C9. When [main] completes, the datasets [lon], [lat] and [time] of
    the file it has written are the arrays read from the variables
    [longitude], [latitude] and [time] of the input file, cell for cell. *)
Theorem main_copies_coordinates (argv : list string) (fs fs' : gmap string file) :
  main argv fs = Ok fs' ->
  exists ds out lon lat time,
    fs !! input_path argv = Some (NetCDF ds) /\
    var_value <$> ds !! "longitude" = Some lon /\
    var_value <$> ds !! "latitude" = Some lat /\
    var_value <$> ds !! "time" = Some time /\
    fs' !! outfile_name (input_path argv) = Some (HDF5 out) /\
    out !! "lon" = Some lon /\
    out !! "lat" = Some lat /\
    out !! "time" = Some time.
Proof.
  unfold main. intros H.
  apply bind_Ok in H as (ds & Hds & H).
  apply bind_Ok in H as (lon & Hlon & H).
  apply bind_Ok in H as (lat & Hlat & H).
  apply bind_Ok in H as (time & Htime & H).
  apply bind_Ok in H as (msl & _ & H).
  apply bind_Ok in H as (msl' & Hmsl' & H).
  apply bind_Ok in H as (scale_factor & Hsf & H).
  apply bind_Ok in H as (add_offset & _ & H).
  apply bind_Ok in H as (missing_value & _ & H).
  apply bind_Ok in H as ([] & _ & H).
  apply bind_Ok in H as ([] & _ & H).
  apply bind_Ok in H as ([] & _ & H).
  apply bind_Ok in H as (ibe & _ & H).
  apply bind_Ok in H as (f1 & Hf1 & H).
  apply bind_Ok in H as (f2 & Hf2 & H).
  apply bind_Ok in H as (f3 & Hf3 & H).
  apply bind_Ok in H as (f4 & Hf4 & H).
  injection H as <-.
  apply fmap_Ok in Hlon as (vlon & Hlon & ->).
  apply fmap_Ok in Hlat as (vlat & Hlat & ->).
  apply fmap_Ok in Htime as (vtime & Htime & ->).
  apply variable_Ok in Hlon, Hlat, Htime.
  apply create_dataset_Ok in Hf1 as [_ ->], Hf2 as [_ ->], Hf3 as [_ ->],
    Hf4 as [_ ->].
  exists ds, (<["ibe" := ibe]> (<["time" := var_value vtime]>
    (<["lat" := var_value vlat]> (<["lon" := var_value vlon]> ∅)))),
    (var_value vlon), (var_value vlat), (var_value vtime).
  split; [by apply (open_dataset_netcdf _ _ _ _ _ Hds Hmsl' Hsf)|].
  unfold XIBE, YIBE, TIBE in *. rewrite Hlon, Hlat, Htime.
  repeat split; by simplify_map_eq.
Qed.

Lemma main_copies_coordinates_witness :
  exists ds out lon lat time,
    sample_fs !! input_path sample_argv = Some (NetCDF ds) /\
    var_value <$> ds !! "longitude" = Some lon /\
    var_value <$> ds !! "latitude" = Some lat /\
    var_value <$> ds !! "time" = Some time /\
    sample_fs_after !! outfile_name (input_path sample_argv) = Some (HDF5 out) /\
    out !! "lon" = Some lon /\
    out !! "lat" = Some lat /\
    out !! "time" = Some time.
Proof.
  apply (main_copies_coordinates sample_argv sample_fs sample_fs_after).
  vm_compute. reflexivity.
Defined.

(** * Part III: further properties of the transform *)

(** ** Every outcome of the transform *)

Lemma slp_to_ibe_cases P rho g P_ref :
  slp_to_ibe P rho g P_ref
  = if Qc_eqb (rho * g)%Qc 0%Qc then Err ZeroDivisionError
    else match shape P with
         | [] => Err IndexError
         | n :: rest =>
             if length rest <? 2 then Err IndexError
             else Ok (ibe_of P n rest (scale rho g))
         end.
Proof.
  destruct (Qc_eqb (rho * g)%Qc 0%Qc) eqn:Hk.
  - destruct (nanmean_axis0_total P) as (m & Hm & _).
    unfold slp_to_ibe. rewrite Hm. simpl. unfold py_div. rewrite Hk. done.
  - assert (Hk' : (rho * g)%Qc <> 0%Qc).
    { intros E. rewrite E in Hk. done. }
    destruct (shape P) as [|n rest] eqn:HP.
    + apply slp_to_ibe_few_axes; [|done]. unfold ndim. rewrite HP. simpl. lia.
    + destruct (Nat.ltb_spec (length rest) 2) as [Hl|Hl].
      * apply slp_to_ibe_few_axes; [|done].
        unfold ndim. rewrite HP. simpl. lia.
      * by apply slp_to_ibe_run.
Qed.

(** X1. With [rho = 0] or [g = 0] the quotient [-1 / (rho * g)] of line
    80 raises: every input that has an axis fails with a zero-division
    error, whatever its shape and content. *)
Theorem slp_to_ibe_zero_division (P : ndarray) (rho g : Qc) (P_ref : pyval) :
  1 <= ndim P -> rho = 0%Qc \/ g = 0%Qc ->
  slp_to_ibe P rho g P_ref = Err ZeroDivisionError.
Proof.
  intros HP Hz. rewrite slp_to_ibe_cases.
  replace (rho * g)%Qc with 0%Qc; [done|].
  destruct Hz as [-> | ->]; ring.
Qed.

Lemma slp_to_ibe_zero_division_witness :
  slp_to_ibe P_sample 0%Qc g_default PyNone = Err ZeroDivisionError.
Proof.
  apply (slp_to_ibe_zero_division P_sample 0%Qc g_default PyNone);
    [unfold ndim; simpl; lia | by left].
Defined.

(** ** Which cells of the result are numbers *)

Lemma numbers_column_nonempty P n idx t q :
  t < n -> item P (t :: idx) = Num q -> numbers (column P n idx) <> [].
Proof.
  intros Ht Hq. unfold column.
  assert (Hin : In (Num q) (map (fun t' => item P (t' :: idx)) (seq 0 n))).
  { apply in_map_iff. exists t. split; [done|]. apply in_seq. lia. }
  revert Hin. generalize (map (fun t' => item P (t' :: idx)) (seq 0 n)).
  intros l. induction l as [|[|q'] l IH]; simpl; intros Hin; try done.
  destruct Hin as [Hin|Hin]; [done | by apply IH].
Qed.

Lemma mean_of_numbers l :
  numbers l <> [] -> exists m, mean_excluding_nan l = Num m.
Proof.
  intros H. unfold mean_excluding_nan. destruct (numbers l); [done | eauto].
Qed.

(** X2. For a (time, lat, lon) array and positive [rho], [g], a cell of
    the result is not-a-number exactly when the same cell of [P] is: the
    transform neither fills a gap nor opens one. *)
Theorem slp_to_ibe_nan_pattern (P : ndarray) (T Y X : nat) (rho g : Qc) (P_ref : pyval) :
  shape P = [T; Y; X] -> (0 < rho)%Qc -> (0 < g)%Qc ->
  exists h, slp_to_ibe P rho g P_ref = Ok h /\
    forall t y x, t < T -> y < Y -> x < X ->
      (item h [t; y; x] = NaN <-> item P [t; y; x] = NaN).
Proof.
  intros HP Hr Hg. eexists. split; [by apply slp_to_ibe_3d|].
  intros t y x Ht Hy Hx. rewrite item_ibe_3d by done.
  destruct (item P [t; y; x]) as [|p] eqn:E; [done|].
  rewrite nanmean_lane_spec.
  destruct (mean_of_numbers (column P T [y; x])) as [m ->]; [|done].
  by apply (numbers_column_nonempty _ _ _ t p).
Qed.

Lemma slp_to_ibe_nan_pattern_witness :
  exists h, slp_to_ibe P_gaps rho_default g_default PyNone = Ok h /\
    forall t y x, t < 2 -> y < 1 -> x < 3 ->
      (item h [t; y; x] = NaN <-> item P_gaps [t; y; x] = NaN).
Proof.
  apply (slp_to_ibe_nan_pattern P_gaps 2 1 3 rho_default g_default PyNone);
    reflexivity.
Defined.

(** ** The sign of the correction *)

Lemma scale_anomaly_sign (rho g p m : Qc) :
  (0 < rho)%Qc -> (0 < g)%Qc ->
  let v := (scale rho g * (p - m))%Qc in
  ((0 < v)%Qc <-> (p < m)%Qc) /\ (v = 0%Qc <-> p = m) /\ ((v < 0)%Qc <-> (m < p)%Qc).
Proof.
  intros Hr Hg v.
  pose proof (Qcmult_pos_pos _ _ Hr Hg) as Hrg.
  pose proof (Qcinv_pos _ Hrg) as Hc.
  pose proof (rho_g_nonzero _ _ Hr Hg) as Hk.
  assert (Hv : v = (/ (rho * g) * (m - p))%Qc).
  { subst v. unfold scale. field. split; intros ->; apply Hk; ring. }
  assert (Hv' : (- v)%Qc = (/ (rho * g) * (p - m))%Qc).
  { rewrite Hv. ring. }
  split; [|split].
  - rewrite Hv, (Qclt_minus_iff p m).
    rewrite (Qcmult_lt_mono_pos_l 0 (m - p) (/ (rho * g)) Hc).
    by rewrite Qcmult_0_r.
  - split.
    + intros E. rewrite Hv in E. apply Qcmult_integral in E as [E|E].
      * rewrite E in Hc. by apply Qclt_not_eq in Hc.
      * symmetry. apply Qcplus_inj_l with (- p)%Qc. simpl.
        rewrite Qcplus_opp_r. done.
    + intros ->. rewrite Hv. ring.
  - rewrite (Qclt_minus_iff m p).
    rewrite (Qcmult_lt_mono_pos_l 0 (p - m) (/ (rho * g)) Hc).
    rewrite Qcmult_0_r, <- Hv'. rewrite (Qclt_minus_iff v 0).
    by rewrite Qcplus_0_l.
Qed.

(** X3. For positive [rho] and [g], where [P[t,y,x]] is a number the
    correction is a number of the opposite sign of the pressure anomaly:
    positive when the pressure is below the mean of its location, zero
    when it equals the mean, negative when it is above. *)
Theorem slp_to_ibe_sign (P : ndarray) (T Y X : nat) (rho g p : Qc) (P_ref : pyval)
    (t y x : nat) :
  shape P = [T; Y; X] -> (0 < rho)%Qc -> (0 < g)%Qc ->
  t < T -> y < Y -> x < X -> item P [t; y; x] = Num p ->
  exists h m v,
    slp_to_ibe P rho g P_ref = Ok h /\
    mean_excluding_nan (column P T [y; x]) = Num m /\
    item h [t; y; x] = Num v /\
    ((0 < v)%Qc <-> (p < m)%Qc) /\ (v = 0%Qc <-> p = m) /\
    ((v < 0)%Qc <-> (m < p)%Qc).
Proof.
  intros HP Hr Hg Ht Hy Hx Hp.
  destruct (mean_of_numbers (column P T [y; x])) as [m Hm].
  { by apply (numbers_column_nonempty _ _ _ t p). }
  exists (ibe_of P T [Y; X] (scale rho g)), m, (scale rho g * (p - m))%Qc.
  split; [by apply slp_to_ibe_3d|]. split; [done|]. split.
  - rewrite item_ibe_3d by done. rewrite nanmean_lane_spec, Hp, Hm. done.
  - by apply scale_anomaly_sign.
Qed.

Lemma slp_to_ibe_sign_witness :
  exists h m v,
    slp_to_ibe P_sample rho_default g_default PyNone = Ok h /\
    mean_excluding_nan (column P_sample 2 [1; 0]) = Num m /\
    item h [0; 1; 0] = Num v /\
    ((0 < v)%Qc <-> (Qc_of_Z 101300 < m)%Qc) /\
    (v = 0%Qc <-> Qc_of_Z 101300 = m) /\
    ((v < 0)%Qc <-> (m < Qc_of_Z 101300)%Qc).
Proof.
  apply (slp_to_ibe_sign P_sample 2 2 2 rho_default g_default
           (Qc_of_Z 101300) PyNone 0 1 0);
    try reflexivity; lia.
Defined.

(** ** Arrays of more than three axes *)

(** X4. The transform works along the first axis of any array with at
    least three axes: the entry at [t :: idx] is the scaled anomaly of
    [P[t, idx]] about the not-a-number-excluding mean of [P[., idx]], and
    the result has the shape of [P]. *)
Theorem slp_to_ibe_formula_nd (P : ndarray) (n : nat) (rest : list nat)
    (rho g : Qc) (P_ref : pyval) :
  shape P = n :: rest -> 2 <= length rest -> (0 < rho)%Qc -> (0 < g)%Qc ->
  exists h, slp_to_ibe P rho g P_ref = Ok h /\ shape h = shape P /\
    forall t idx, t < n -> in_bounds rest idx = true ->
      item h (t :: idx)
      = fmul (Num (-1 / (rho * g))%Qc)
          (fsub (item P (t :: idx)) (mean_excluding_nan (column P n idx))).
Proof.
  intros HP Hrest Hr Hg. eexists. split.
  - apply slp_to_ibe_run; [done | done | by apply rho_g_nonzero].
  - split; [by rewrite HP|].
    intros t idx Ht Hidx. rewrite item_ibe_of by done.
    by rewrite nanmean_lane_spec.
Qed.

Lemma slp_to_ibe_formula_nd_witness :
  exists h, slp_to_ibe P_4d rho_default g_default PyNone = Ok h /\
    shape h = shape P_4d /\
    forall t idx, t < 2 -> in_bounds [1; 1; 2] idx = true ->
      item h (t :: idx)
      = fmul (Num (-1 / (rho_default * g_default))%Qc)
          (fsub (item P_4d (t :: idx)) (mean_excluding_nan (column P_4d 2 idx))).
Proof.
  apply (slp_to_ibe_formula_nd P_4d 2 [1; 1; 2] rho_default g_default PyNone);
    [reflexivity | simpl; lia | reflexivity | reflexivity].
Defined.

(** ** The mean of the result where data are missing *)

(** A cell minus a number, scaled. *)
Lemma numbers_anomalies (k m : Qc) l :
  numbers (map (fun v => fmul (Num k) (fsub v (Num m))) l)
  = map (fun q => (k * (q - m))%Qc) (numbers l).
Proof.
  induction l as [|[|q] l IH]; [done | apply IH |].
  cbn [map fmul fsub numbers]. f_equal. apply IH.
Qed.

Lemma Qc_sum_anomalies (k m : Qc) qs :
  Qc_sum (map (fun q => (k * (q - m))%Qc) qs)
  = (k * (Qc_sum qs - Qc_of_Z (Z.of_nat (length qs)) * m))%Qc.
Proof.
  induction qs as [|q qs IH].
  - cbn [map Qc_sum fold_right length]. change (Z.of_nat 0) with 0%Z.
    rewrite Z2Qc_inj_0. ring.
  - cbn [map length]. rewrite !Qc_sum_cons, IH, Qc_of_nat_S. ring.
Qed.

(** The anomalies of a lane about its own mean have mean zero, the
    not-a-number entries left out on both sides. *)
Lemma mean_excluding_nan_centred (k : Qc) l :
  numbers l <> [] ->
  mean_excluding_nan
    (map (fun v => fmul (Num k) (fsub v (mean_excluding_nan l))) l) = Num 0%Qc.
Proof.
  intros Hl. destruct (numbers l) as [|q qs] eqn:E; [done|].
  set (m := (Qc_sum (q :: qs) / Qc_of_Z (Z.of_nat (length (q :: qs))))%Qc).
  assert (Hm : mean_excluding_nan l = Num m).
  { unfold mean_excluding_nan. by rewrite E. }
  rewrite Hm. unfold mean_excluding_nan. rewrite numbers_anomalies, E.
  destruct (map (fun q0 => (k * (q0 - m))%Qc) (q :: qs)) as [|q' qs'] eqn:E';
    [done|].
  rewrite <- E', Qc_sum_anomalies, length_map. f_equal.
  subst m. field. by apply Qc_of_nat_nonzero.
Qed.

(** X5. Missing data or not, [np.nanmean] along the time axis of the
    result is zero at every location where [P] has at least one number
    (and not-a-number where it has none). *)
Theorem slp_to_ibe_nanmean_zero (P : ndarray) (T Y X : nat) (rho g : Qc) (P_ref : pyval) :
  shape P = [T; Y; X] -> (0 < rho)%Qc -> (0 < g)%Qc ->
  exists h m,
    slp_to_ibe P rho g P_ref = Ok h /\ nanmean_axis0 h = Ok m /\
    forall y x, y < Y -> x < X ->
      ((exists t, t < T /\ item P [t; y; x] <> NaN) -> item m [y; x] = Num 0%Qc) /\
      ((forall t, t < T -> item P [t; y; x] = NaN) -> item m [y; x] = NaN).
Proof.
  intros HP Hr Hg. eexists _, _.
  split; [by apply slp_to_ibe_3d|].
  split; [by apply nanmean_axis0_cons, shape_ibe_of|].
  intros y x Hy Hx.
  pose proof (in_bounds_2 _ _ _ _ Hy Hx) as Hb.
  rewrite (item_reference _ T [Y; X] [y; x]) by (done || apply shape_ibe_of).
  rewrite (column_ibe_of _ _ _ _ _ HP Hb), !nanmean_lane_spec.
  split.
  - intros (t & Ht & Hp). apply mean_excluding_nan_centred.
    destruct (item P [t; y; x]) as [|p] eqn:E; [done|].
    by apply (numbers_column_nonempty _ _ _ t p).
  - intros HN. rewrite <- nanmean_lane_spec. apply nanmean_lane_all_nan.
    apply Forall_forall. intros v Hv. apply in_map_iff in Hv as (w & <- & Hw).
    pose proof (column_all_nan P T [y; x] HN) as Hall.
    rewrite Forall_forall in Hall. by rewrite (Hall w Hw).
Qed.

Lemma slp_to_ibe_nanmean_zero_witness :
  exists h m,
    slp_to_ibe P_gaps rho_default g_default PyNone = Ok h /\
    nanmean_axis0 h = Ok m /\
    forall y x, y < 1 -> x < 3 ->
      ((exists t, t < 2 /\ item P_gaps [t; y; x] <> NaN) -> item m [y; x] = Num 0%Qc) /\
      ((forall t, t < 2 -> item P_gaps [t; y; x] = NaN) -> item m [y; x] = NaN).
Proof.
  apply (slp_to_ibe_nanmean_zero P_gaps 2 1 3 rho_default g_default PyNone);
    reflexivity.
Defined.

(** ** Rescaling the pressure field *)

Lemma nth_map_nan (f : float64 -> float64) l i :
  f NaN = NaN -> nth i (map f l) NaN = f (nth i l NaN).
Proof. intros Hf. rewrite <- Hf at 1. apply map_nth. Qed.

Lemma broadcast_to_map (f : float64 -> float64) a a' sh :
  f NaN = NaN -> shape a' = shape a -> data a' = map f (data a) ->
  data (broadcast_to a' sh) = map f (data (broadcast_to a sh)).
Proof.
  intros Hf Hs Hd. unfold broadcast_to. cbn [data]. rewrite map_map.
  apply map_ext. intros idx. unfold item. rewrite Hs, Hd. by apply nth_map_nan.
Qed.

Lemma numbers_times c l :
  numbers (map (fmul (Num c)) l) = map (Qcmult c) (numbers l).
Proof.
  induction l as [|[|q] l IH]; [done | apply IH |].
  cbn [map fmul numbers]. f_equal. apply IH.
Qed.

Lemma Qc_sum_times c qs : Qc_sum (map (Qcmult c) qs) = (c * Qc_sum qs)%Qc.
Proof.
  induction qs as [|q qs IH].
  - cbn [map Qc_sum fold_right]. ring.
  - cbn [map]. rewrite !Qc_sum_cons, IH. ring.
Qed.

(** The mean of a rescaled lane is the rescaled mean. *)
Lemma nanmean_lane_times c l :
  nanmean_lane (map (fmul (Num c)) l) = fmul (Num c) (nanmean_lane l).
Proof.
  rewrite !nanmean_lane_spec. unfold mean_excluding_nan.
  rewrite numbers_times. destruct (numbers l) as [|q qs]; [done|].
  destruct (map (Qcmult c) (q :: qs)) as [|q' qs'] eqn:E; [done|].
  rewrite <- E, Qc_sum_times, length_map. cbn [fmul]. f_equal.
  field. by apply Qc_of_nat_nonzero.
Qed.

Lemma reference_scalar_mul P c n rest :
  data (reference (scalar_mul c P) n rest)
  = map (fmul (Num c)) (data (reference P n rest)).
Proof.
  unfold reference. cbn [data]. rewrite map_map. apply map_ext. intros j.
  rewrite <- nanmean_lane_times. f_equal.
  unfold lane, scalar_mul. cbn [data]. rewrite map_map. apply map_ext.
  intros i. by apply nth_map_nan.
Qed.

Lemma fsub_times c a b :
  fsub (fmul (Num c) a) (fmul (Num c) b) = fmul (Num c) (fsub a b).
Proof. destruct a, b; simpl; try done. f_equal. ring. Qed.

Lemma zip_with_fsub_times c l1 l2 :
  zip_with fsub (map (fmul (Num c)) l1) (map (fmul (Num c)) l2)
  = map (fmul (Num c)) (zip_with fsub l1 l2).
Proof.
  revert l2. induction l1 as [|a l1 IH]; intros [|b l2]; try done.
  cbn [map zip_with]. by rewrite fsub_times, IH.
Qed.

Lemma fmul_swap k c v :
  fmul (Num k) (fmul (Num c) v) = fmul (Num c) (fmul (Num k) v).
Proof. destruct v; simpl; [done|]. f_equal. ring. Qed.

Lemma ibe_of_scalar_mul P c n rest k :
  ibe_of (scalar_mul c P) n rest k = scalar_mul c (ibe_of P n rest k).
Proof.
  unfold ibe_of. cbv zeta.
  rewrite (broadcast_to_map (fmul (Num c)) P (scalar_mul c P)) by done.
  rewrite (broadcast_to_map (fmul (Num c))
             (mk_ndarray (1 :: rest) (data (reference P n rest)))
             (mk_ndarray (1 :: rest) (data (reference (scalar_mul c P) n rest))));
    [| done | done | cbn [data]; apply reference_scalar_mul].
  rewrite zip_with_fsub_times. unfold scalar_mul. cbn [shape data]. f_equal.
  rewrite !map_map. apply map_ext. intros v. apply fmul_swap.
Qed.

(** X6. In exact arithmetic (cells and factors exact rationals, no
    rounding) the transform commutes with a change of pressure unit: for
    every factor [c], [slp_to_ibe(c * P)] is [c * slp_to_ibe(P)], and the
    one call fails exactly as the other does.  Over binary64 the two can
    differ in the last digit, see [slp_to_ibe_homogeneous_binary64]. *)
Theorem slp_to_ibe_homogeneous (P : ndarray) (c rho g : Qc) (P_ref : pyval) :
  slp_to_ibe (scalar_mul c P) rho g P_ref
  = scalar_mul c <$> slp_to_ibe P rho g P_ref.
Proof.
  rewrite !slp_to_ibe_cases. change (shape (scalar_mul c P)) with (shape P).
  destruct (Qc_eqb (rho * g) 0); [done|].
  destruct (shape P) as [|n rest]; [done|].
  destruct (length rest <? 2); [done|].
  simpl. f_equal. apply ibe_of_scalar_mul.
Qed.

(** ** A constant added to a field with gaps *)

(** X18. In exact arithmetic (cells and constants exact rationals, no
    rounding) adding a constant to every cell does not change the outcome
    of the transform: with missing values or without, for any number of
    axes and any [rho] and [g], [slp_to_ibe(P + c)] returns what
    [slp_to_ibe(P)] returns and fails where it fails.  Over binary64 it
    does not hold, see [slp_to_ibe_translation_binary64]. *)
Theorem slp_to_ibe_translation_any (P : ndarray) (c rho g : Qc) (P_ref : pyval) :
  slp_to_ibe (add_scalar P c) rho g P_ref = slp_to_ibe P rho g P_ref.
Proof.
  rewrite !slp_to_ibe_cases. change (shape (add_scalar P c)) with (shape P).
  destruct (Qc_eqb (rho * g) 0); [done|].
  destruct (shape P) as [|n rest] eqn:HP; [done|].
  destruct (length rest <? 2); [done|].
  f_equal. by apply ibe_of_add_scalar.
Qed.

(** * Part IV: further properties of the output file name *)

Lemma length_append (a b : string) :
  String.length (a +:+ b) = String.length a + String.length b.
Proof.
  induction a as [|x a IH]; [done|]. rewrite append_cons. simpl. by rewrite IH.
Qed.

Lemma starts_with_length old s :
  starts_with old s = true -> String.length old <= String.length s.
Proof.
  revert s. induction old as [|o old IH]; intros [|x s] H; simpl in *;
    try done; try lia.
  apply andb_true_iff in H as [_ H]. apply IH in H. lia.
Qed.

(** With [old] and [new] of one length, the scan gives back as many
    characters as it reads. *)
Lemma replace_scan_length old new s k :
  1 <= String.length old -> String.length new = String.length old ->
  k <= String.length s ->
  String.length (replace_scan old new k s) + k = String.length s.
Proof.
  intros Hold Hlen. revert k. induction s as [|x s IH]; intros k Hk.
  - simpl in *. lia.
  - destruct k as [|k]; cbn [replace_scan].
    + destruct (starts_with old (String x s)) eqn:E.
      * apply starts_with_length in E. cbn [String.length] in *.
        rewrite length_append, Hlen.
        specialize (IH (String.length old - 1)). lia.
      * cbn [String.length]. specialize (IH 0). lia.
    + cbn [String.length] in *. specialize (IH k). lia.
Qed.

(** X7. The output name has the length of the input name, whatever the
    input name is: both replacements put a token in the place of one of
    the same length. *)
Theorem outfile_name_length (infile : string) :
  String.length (outfile_name infile) = String.length infile.
Proof.
  unfold outfile_name, str_replace.
  assert (H1 := replace_scan_length "SLP_" "IBE_" infile 0).
  assert (H2 := replace_scan_length ".nc" ".h5"
                  (replace_scan "SLP_" "IBE_" 0 infile) 0).
  cbn [String.length] in H1, H2. lia.
Qed.

(** ** Tokens in the output name *)

Section scan_tokens.
Variables (o nh : Ascii.ascii) (old' new' : string).
Local Abbreviation old := (String o old').
Local Abbreviation new := (String nh new').

(** Where the input does not continue with [p], the output does not
    either, as long as a replacement cannot supply a character of [p]. *)
Lemma starts_with_kept p u :
  char_in nh p = false ->
  starts_with p u = false -> starts_with p (replace_scan old new 0 u) = false.
Proof.
  revert u. induction p as [|c p IH]; intros u Hc H; [by destruct u|].
  cbn [char_in] in Hc. apply orb_false_iff in Hc as [Hc1 Hc2].
  destruct u as [|a u]; [done|]. cbn [replace_scan].
  destruct (starts_with old (String a u)).
  - rewrite append_cons. simpl.
    rewrite Ascii.eqb_sym, Hc1. done.
  - simpl in *. destruct (Ascii.eqb c a); [|done]. simpl in *. by apply IH.
Qed.

(** No occurrence of [pat] is created by the scan when no character of
    [new] can begin it or continue it. *)
Lemma replace_scan_keeps_absent pat s k :
  (forall Y, occurs_from pat new Y = false) ->
  char_in nh (tail pat) = false ->
  occurs pat s = false -> occurs pat (replace_scan old new k s) = false.
Proof.
  intros Hnew Hc. revert k. induction s as [|x s IH]; intros k H.
  - by destruct k.
  - assert (Hs : occurs pat s = false).
    { cbn [occurs] in H. by apply orb_false_iff in H as [_ H]. }
    destruct k as [|k]; cbn [replace_scan]; [|by apply IH].
    destruct (starts_with old (String x s)) eqn:E.
    + apply occurs_append; [apply Hnew | by apply IH].
    + cbn [occurs]. rewrite (IH 0 Hs), orb_false_r.
      cbn [occurs] in H. apply orb_false_iff in H as [H _].
      destruct pat as [|c p]; [done|]. simpl in *.
      destruct (Ascii.eqb c x); [|done]. simpl in *. by apply starts_with_kept.
Qed.

(** After the scan [old] is gone, when [new] neither holds it nor can
    continue it. *)
Lemma replace_scan_removes s k :
  (forall Y, occurs_from old new Y = false) ->
  char_in nh old' = false ->
  occurs old (replace_scan old new k s) = false.
Proof.
  intros Hnew Hc. revert k. induction s as [|x s IH]; intros k.
  - by destruct k.
  - destruct k as [|k]; cbn [replace_scan]; [|apply IH].
    destruct (starts_with old (String x s)) eqn:E.
    + apply occurs_append; [apply Hnew | apply IH].
    + cbn [occurs]. rewrite (IH 0), orb_false_r.
      simpl in *.
      destruct (Ascii.eqb o x); [|done]. simpl in *. by apply starts_with_kept.
Qed.
End scan_tokens.

Lemma outfile_name_tokens_gone infile :
  occurs "SLP_" (outfile_name infile) = false /\
  occurs ".nc" (outfile_name infile) = false.
Proof.
  unfold outfile_name, str_replace. split.
  - apply replace_scan_keeps_absent; [done | done |].
    by apply replace_scan_removes.
  - by apply replace_scan_removes.
Qed.

(** X8. The output name never holds [SLP_] and never holds [.nc],
    whatever the input name is. *)
Theorem outfile_name_has_no_token (infile : string) :
  occurs "SLP_" (outfile_name infile) = false /\
  occurs ".nc" (outfile_name infile) = false.
Proof. apply outfile_name_tokens_gone. Qed.

(** X9. The output name is the input name exactly when the input name
    holds neither [SLP_] nor [.nc]; with either token in it the run writes
    under another name than the one it reads. *)
Theorem outfile_name_fixed_iff (infile : string) :
  outfile_name infile = infile <->
  occurs "SLP_" infile = false /\ occurs ".nc" infile = false.
Proof.
  split.
  - intros E. rewrite <- E. apply outfile_name_tokens_gone.
  - intros [H1 H2]. unfold outfile_name, str_replace.
    rewrite (replace_scan_absent "SLP_" "IBE_" infile H1).
    by apply replace_scan_absent.
Qed.

(** * Part V: further properties of the driver *)

(** X10. Without a file at the input path the run stops at once with
    the error of the missing file. *)
Theorem main_missing_file (argv : list string) (fs : gmap string file) :
  fs !! input_path argv = None -> main argv fs = Err FileNotFoundError.
Proof. intros H. unfold main, open_dataset. rewrite H. done. Qed.

Lemma main_missing_file_witness :
  main ["slp2ibe.py"; "SLP_absent.nc"] sample_fs = Err FileNotFoundError.
Proof.
  apply (main_missing_file ["slp2ibe.py"; "SLP_absent.nc"] sample_fs).
  vm_compute. reflexivity.
Defined.

(** X11. When the input file lacks one of the variables [longitude],
    [latitude], [time], [msl], the run stops with a key error. *)
Theorem main_missing_variable (argv : list string) (fs : gmap string file)
    (ds : gmap string nc_variable) :
  fs !! input_path argv = Some (NetCDF ds) ->
  ds !! "longitude" = None \/ ds !! "latitude" = None \/
  ds !! "time" = None \/ ds !! "msl" = None ->
  main argv fs = Err KeyError.
Proof.
  intros Hfs H. unfold main, open_dataset. rewrite Hfs. simpl.
  unfold variable, XIBE, YIBE, TIBE, ZIBE.
  destruct (ds !! "longitude") as [vlon|]; [simpl|done].
  destruct (ds !! "latitude") as [vlat|]; [simpl|done].
  destruct (ds !! "time") as [vtime|]; [simpl|done].
  destruct (ds !! "msl") as [vmsl|]; [|done].
  by destruct H as [H | [H | [H | H]]].
Qed.

Lemma main_missing_variable_witness :
  main sample_argv {[ "SLP_sample.nc" := NetCDF (delete "time" sample_dataset) ]}
  = Err KeyError.
Proof.
  apply (main_missing_variable sample_argv _ (delete "time" sample_dataset)).
  - vm_compute. reflexivity.
  - right. right. left. vm_compute. reflexivity.
Defined.

(** X12. When the four variables are there and [msl] lacks one of the
    attributes [scale_factor], [add_offset], [missing_value], the run
    stops with an attribute error, although it makes no use of their
    values. *)
Theorem main_missing_attribute (argv : list string) (fs : gmap string file)
    (ds : gmap string nc_variable) (vlon vlat vtime vmsl : nc_variable) :
  fs !! input_path argv = Some (NetCDF ds) ->
  ds !! "longitude" = Some vlon -> ds !! "latitude" = Some vlat ->
  ds !! "time" = Some vtime -> ds !! "msl" = Some vmsl ->
  var_attrs vmsl !! "scale_factor" = None \/
  var_attrs vmsl !! "add_offset" = None \/
  var_attrs vmsl !! "missing_value" = None ->
  main argv fs = Err AttributeError.
Proof.
  intros Hfs Hlon Hlat Htime Hmsl H. unfold main, open_dataset. rewrite Hfs.
  simpl. unfold variable, XIBE, YIBE, TIBE, ZIBE.
  rewrite Hlon, Hlat, Htime, Hmsl. simpl. unfold get_attr.
  destruct (var_attrs vmsl !! "scale_factor"); [simpl|done].
  destruct (var_attrs vmsl !! "add_offset"); [simpl|done].
  destruct (var_attrs vmsl !! "missing_value"); [|done].
  by destruct H as [H | [H | H]].
Qed.

Lemma main_missing_attribute_witness :
  main sample_argv
    {[ "SLP_sample.nc" :=
         NetCDF (<["msl" := mk_variable P_sample (delete "add_offset" msl_attrs)]>
                   sample_dataset) ]}
  = Err AttributeError.
Proof.
  apply (main_missing_attribute sample_argv _
           (<["msl" := mk_variable P_sample (delete "add_offset" msl_attrs)]>
              sample_dataset)
           (mk_variable (coordinate [297; 298]%Z) ∅)
           (mk_variable (coordinate [-67; -68]%Z) ∅)
           (mk_variable (coordinate [937896; 937899]%Z) ∅)
           (mk_variable P_sample (delete "add_offset" msl_attrs)));
    try (vm_compute; reflexivity).
  right. left. vm_compute. reflexivity.
Defined.

(** What a completed run has gone through. *)
Lemma main_Ok argv fs fs' :
  main argv fs = Ok fs' ->
  exists ds vlon vlat vtime vmsl ibe,
    fs !! input_path argv = Some (NetCDF ds) /\
    ds !! "longitude" = Some vlon /\ ds !! "latitude" = Some vlat /\
    ds !! "time" = Some vtime /\ ds !! "msl" = Some vmsl /\
    slp_to_ibe (var_value vmsl) rho_default g_default PyNone = Ok ibe /\
    fs' = <[outfile_name (input_path argv) :=
              HDF5 (<["ibe" := ibe]> (<["time" := var_value vtime]>
                     (<["lat" := var_value vlat]>
                        (<["lon" := var_value vlon]> ∅))))]> fs.
Proof.
  unfold main. intros H.
  apply bind_Ok in H as (ds & Hds & H).
  apply bind_Ok in H as (lon & Hlon & H).
  apply bind_Ok in H as (lat & Hlat & H).
  apply bind_Ok in H as (time & Htime & H).
  apply bind_Ok in H as (msl & Hmsl & H).
  apply bind_Ok in H as (msl' & Hmsl' & H).
  apply bind_Ok in H as (scale_factor & Hsf & H).
  apply bind_Ok in H as (add_offset & _ & H).
  apply bind_Ok in H as (missing_value & _ & H).
  apply bind_Ok in H as ([] & _ & H).
  apply bind_Ok in H as ([] & _ & H).
  apply bind_Ok in H as ([] & _ & H).
  apply bind_Ok in H as (ibe & Hibe & H).
  apply bind_Ok in H as (f1 & Hf1 & H).
  apply bind_Ok in H as (f2 & Hf2 & H).
  apply bind_Ok in H as (f3 & Hf3 & H).
  apply bind_Ok in H as (f4 & Hf4 & H).
  injection H as <-.
  apply fmap_Ok in Hlon as (vlon & Hlon & ->).
  apply fmap_Ok in Hlat as (vlat & Hlat & ->).
  apply fmap_Ok in Htime as (vtime & Htime & ->).
  apply variable_Ok in Hlon, Hlat, Htime, Hmsl.
  apply create_dataset_Ok in Hf1 as [_ ->], Hf2 as [_ ->], Hf3 as [_ ->],
    Hf4 as [_ ->].
  apply (open_dataset_netcdf _ _ _ _ _ Hds Hmsl') in Hsf.
  exists ds, vlon, vlat, vtime, msl, ibe. done.
Qed.

Lemma slp_to_ibe_Ok_shape P rho g P_ref h :
  slp_to_ibe P rho g P_ref = Ok h -> 3 <= ndim P /\ shape h = shape P.
Proof.
  rewrite slp_to_ibe_cases. unfold ndim.
  destruct (Qc_eqb (rho * g) 0); [done|].
  destruct (shape P) as [|n rest]; [done|].
  destruct (Nat.ltb_spec (length rest) 2); [done|].
  intros [= <-]. simpl. split; [lia | done].
Qed.

(** X13. When [main] completes, the file it has written holds the four
    datasets [lon], [lat], [time], [ibe] and no other; [ibe] is what
    [slp_to_ibe] returns for the variable [msl] with the default [rho] and
    [g]; it has the shape of [msl], which has at least three axes. *)
Theorem main_output (argv : list string) (fs fs' : gmap string file) :
  main argv fs = Ok fs' ->
  exists ds vmsl ibe out,
    fs !! input_path argv = Some (NetCDF ds) /\
    ds !! "msl" = Some vmsl /\
    slp_to_ibe (var_value vmsl) rho_default g_default PyNone = Ok ibe /\
    fs' !! outfile_name (input_path argv) = Some (HDF5 out) /\
    dom out = {[ "lon"; "lat"; "time"; "ibe" ]} /\
    out !! "ibe" = Some ibe /\
    shape ibe = shape (var_value vmsl) /\ 3 <= ndim (var_value vmsl).
Proof.
  intros H.
  apply main_Ok in H as (ds & vlon & vlat & vtime & vmsl & ibe & Hfs & _ & _ & _
                         & Hmsl & Hibe & ->).
  exists ds, vmsl, ibe. eexists. split; [done|]. split; [done|]. split; [done|].
  split; [by rewrite lookup_insert_eq|].
  split; [rewrite !dom_insert_L, dom_empty_L; set_solver|].
  split; [by rewrite lookup_insert_eq|].
  apply slp_to_ibe_Ok_shape in Hibe as [? ?]. done.
Qed.

Lemma main_output_witness :
  exists ds vmsl ibe out,
    sample_fs !! input_path sample_argv = Some (NetCDF ds) /\
    ds !! "msl" = Some vmsl /\
    slp_to_ibe (var_value vmsl) rho_default g_default PyNone = Ok ibe /\
    sample_fs_after !! outfile_name (input_path sample_argv) = Some (HDF5 out) /\
    dom out = {[ "lon"; "lat"; "time"; "ibe" ]} /\
    out !! "ibe" = Some ibe /\
    shape ibe = shape (var_value vmsl) /\ 3 <= ndim (var_value vmsl).
Proof.
  apply (main_output sample_argv sample_fs sample_fs_after).
  vm_compute. reflexivity.
Defined.

(** X14. A completed run has written one file and touched no other: at
    every path but the output path the file system is as it was. *)
Theorem main_frame (argv : list string) (fs fs' : gmap string file) (path : string) :
  main argv fs = Ok fs' -> path <> outfile_name (input_path argv) ->
  fs' !! path = fs !! path.
Proof.
  intros H Hp.
  apply main_Ok in H as (ds & vlon & vlat & vtime & vmsl & ibe & _ & _ & _ & _
                         & _ & _ & ->).
  by rewrite lookup_insert_ne.
Qed.

Lemma main_frame_witness :
  sample_fs_after !! "SLP_sample.nc" = sample_fs !! "SLP_sample.nc".
Proof.
  apply (main_frame sample_argv sample_fs sample_fs_after "SLP_sample.nc").
  - vm_compute. reflexivity.
  - vm_compute. discriminate.
Defined.

(** X15. When the input name holds [SLP_] or [.nc] a completed run has
    left its input file as it was: the output went to another path. *)
Theorem main_keeps_input (argv : list string) (fs fs' : gmap string file) :
  main argv fs = Ok fs' ->
  occurs "SLP_" (input_path argv) = true \/ occurs ".nc" (input_path argv) = true ->
  fs' !! input_path argv = fs !! input_path argv.
Proof.
  intros H Hocc.
  apply main_Ok in H as (ds & vlon & vlat & vtime & vmsl & ibe & _ & _ & _ & _
                         & _ & _ & ->).
  apply lookup_insert_ne. intros E.
  pose proof (outfile_name_tokens_gone (input_path argv)) as [H1 H2].
  rewrite E in H1, H2. destruct Hocc as [Ho|Ho]; congruence.
Qed.

Lemma main_keeps_input_witness :
  sample_fs_after !! input_path sample_argv = sample_fs !! input_path sample_argv.
Proof.
  apply (main_keeps_input sample_argv sample_fs sample_fs_after).
  - vm_compute. reflexivity.
  - left. vm_compute. reflexivity.
Defined.

(** * Part VI: the expressions of the test block *)

Lemma flt_Num x y : flt (Num x) (Num y) = true <-> (x < y)%Qc.
Proof.
  unfold flt. rewrite Qclt_alt. destruct (x ?= y)%Qc; split; done.
Qed.

(** The scan keeps the first of the smallest values seen. *)
Lemma argmin_scan_first_min (D : nat -> Qc) l best i :
  (forall k, k < length l -> nth k l 0%Qc = D (i + k)) -> best < i ->
  (forall j, j < i -> (D best <= D j)%Qc) ->
  (forall j, j < best -> (D best < D j)%Qc) ->
  let r := argmin_scan best (Num (D best)) i (map Num l) in
  r < i + length l /\
  (forall j, j < i + length l -> (D r <= D j)%Qc) /\
  (forall j, j < r -> (D r < D j)%Qc).
Proof.
  revert best i. induction l as [|v l IH]; intros best i Hl Hb Hle Hlt;
    cbn [argmin_scan map isnan orb length].
  - rewrite Nat.add_0_r. split; [lia|]. split; done.
  - assert (Hv : v = D i).
    { specialize (Hl 0). simpl in Hl. rewrite Nat.add_0_r in Hl. apply Hl. lia. }
    assert (Hl' : forall k, k < length l -> nth k l 0%Qc = D (S i + k)).
    { intros k Hk. specialize (Hl (S k)). simpl in Hl.
      replace (S i + k) with (i + S k) by lia. apply Hl. lia. }
    destruct (flt (Num v) (Num (D best))) eqn:E.
    + apply flt_Num in E. rewrite Hv in *.
      destruct (IH i (S i) Hl') as (H1 & H2 & H3); [lia | | |].
      * intros j Hj. destruct (decide (j = i)) as [->|]; [apply Qcle_refl|].
        apply Qclt_le_weak, Qclt_le_trans with (D best); [done|]. apply Hle. lia.
      * intros j Hj. apply Qclt_le_trans with (D best); [done|]. apply Hle. lia.
      * split; [lia|]. split; [|done].
        intros j Hj. apply H2. lia.
    + assert (Hge : (D best <= D i)%Qc).
      { apply Qcnot_lt_le. intros Hc. rewrite Hv in E.
        apply flt_Num in Hc. congruence. }
      destruct (IH best (S i) Hl') as (H1 & H2 & H3); [lia | | done |].
      * intros j Hj. destruct (decide (j = i)) as [->|]; [done|]. apply Hle. lia.
      * split; [lia|]. split; [|done].
        intros j Hj. apply H2. lia.
Qed.

Lemma distances_numbers arr val :
  has_nan arr = false ->
  data (np_abs (sub_scalar arr val))
  = map Num (map (fun q => Qcabs.Qcabs (q - val)) (map replace_nan (data arr))).
Proof.
  unfold has_nan, np_abs, sub_scalar. cbn [data]. intros H.
  rewrite !map_map. induction (data arr) as [|[|q] l IH]; simpl in *; try done.
  f_equal. by apply IH.
Qed.

(** X16. On an array with at least one cell and no not-a-number,
    [find_nearest] returns the index of a cell nearest to [val], and the
    first such index in buffer order. *)
Theorem find_nearest_first_nearest (arr : ndarray) (val : Qc) :
  data arr <> [] -> has_nan arr = false ->
  exists i, find_nearest arr val = Ok i /\ i < length (data arr) /\
    (forall j, j < length (data arr) -> (distance arr val i <= distance arr val j)%Qc) /\
    (forall j, j < i -> (distance arr val i < distance arr val j)%Qc).
Proof.
  intros Hne Hnan. unfold find_nearest, argmin.
  rewrite (distances_numbers _ _ Hnan).
  set (D := distance arr val).
  set (f := fun q => Qcabs.Qcabs (q - val)).
  assert (HD : forall k, k < length (data arr) ->
             nth k (map f (map replace_nan (data arr))) 0%Qc = D k).
  { intros k Hk. subst D f. unfold distance.
    rewrite (nth_map_default _ _ _ 0%Qc) by by rewrite length_map.
    f_equal. f_equal. by rewrite (nth_map_default _ _ _ NaN). }
  destruct (data arr) as [|v0 l] eqn:E; [done|]. cbn [map].
  eexists. split; [reflexivity|].
  assert (H0 : f (replace_nan v0) = D 0).
  { apply (HD 0). simpl. lia. }
  rewrite H0.
  destruct (argmin_scan_first_min D (map f (map replace_nan l)) 0 1)
    as (H1 & H2 & H3).
  - intros k Hk. rewrite !length_map in Hk. apply (HD (S k)). simpl. lia.
  - lia.
  - intros j Hj. replace j with 0 by lia. apply Qcle_refl.
  - intros j Hj. lia.
  - rewrite !length_map in H1, H2. cbn [length]. split; [lia|]. split; [|done].
    intros j Hj. apply H2. lia.
Qed.

Lemma find_nearest_first_nearest_witness :
  exists i, find_nearest (coordinate [295; 297; 299; 298]%Z) (Q2Qc (595 # 2)) = Ok i /\
    i < length (data (coordinate [295; 297; 299; 298]%Z)) /\
    (forall j, j < length (data (coordinate [295; 297; 299; 298]%Z)) ->
       (distance (coordinate [295; 297; 299; 298]%Z) (Q2Qc (595 # 2)) i
        <= distance (coordinate [295; 297; 299; 298]%Z) (Q2Qc (595 # 2)) j)%Qc) /\
    (forall j, j < i ->
       (distance (coordinate [295; 297; 299; 298]%Z) (Q2Qc (595 # 2)) i
        < distance (coordinate [295; 297; 299; 298]%Z) (Q2Qc (595 # 2)) j)%Qc).
Proof.
  apply (find_nearest_first_nearest (coordinate [295; 297; 299; 298]%Z)
           (Q2Qc (595 # 2))); [discriminate | reflexivity].
Defined.

Example find_nearest_tie :
  find_nearest (coordinate [295; 297; 299; 298]%Z) (Q2Qc (595 # 2)) = Ok 1.
Proof. reflexivity. Qed.

Example find_nearest_nan :
  find_nearest (mk_ndarray [3] [Pa 295; NaN; Pa 297]) (Qc_of_Z 297) = Ok 1.
Proof. reflexivity. Qed.

Example find_nearest_empty :
  find_nearest (mk_ndarray [0] []) (Qc_of_Z 297) = Err ValueError.
Proof. reflexivity. Qed.

(** ** The corrected series of one grid cell *)

Lemma flat_map_singleton {A B} (g : A -> B) (l : list A) :
  flat_map (fun a => [g a]) l = map g l.
Proof. induction l as [|a l IH]; simpl; [done | by rewrite IH]. Qed.

Lemma series_at_3d P T Y X i j :
  shape P = [T; Y; X] -> i < Y -> j < X ->
  series_at P i j = Ok (mk_ndarray [T] (column P T [i; j])).
Proof.
  intros HP Hi Hj. unfold series_at. rewrite HP.
  apply Nat.ltb_lt in Hi, Hj. rewrite Hi, Hj. simpl.
  by rewrite (flat_map_singleton (fun t => item P [t; i; j])).
Qed.

Lemma fsum_numbers qs : fsum (map Num qs) = Num (Qc_sum qs).
Proof.
  induction qs as [|q qs IH]; [done|].
  cbn [map]. unfold fsum in *. cbn [fold_right]. rewrite IH. done.
Qed.

(** On a lane of numbers [np.mean] and [np.nanmean] agree. *)
Lemma np_mean_numbers l :
  existsb isnan l = false -> l <> [] -> np_mean l = nanmean_lane l.
Proof.
  intros Hnan Hne. rewrite (all_numbers _ Hnan) in *.
  destruct (map replace_nan l) as [|q qs]; [done|].
  rewrite nanmean_lane_numbers. unfold np_mean. rewrite length_map.
  cbn [length]. rewrite fsum_numbers. done.
Qed.

(** X17. In exact arithmetic (cells exact rationals, no rounding, so that
    the order in which a mean is summed does not matter): for a
    three-dimensional [P] with no not-a-number and at least one time step,
    the series the test block would plot for the grid cell [(i, j)], that
    is [msl[:, i, j]] corrected with [np.mean], is the column [(i, j)] of
    what [slp_to_ibe] returns with the default [rho] and [g]. *)
Theorem test_correction_agrees (P : ndarray) (T Y X i j : nat) :
  shape P = [T; Y; X] -> wf P -> has_nan P = false -> 1 <= T ->
  i < Y -> j < X ->
  exists p c h,
    series_at P i j = Ok p /\ test_correction p = Ok c /\
    slp_to_ibe P rho_default g_default PyNone = Ok h /\
    shape c = [T] /\ data c = column h T [i; j].
Proof.
  intros HP Hwf Hnan HT Hi Hj.
  pose proof (in_bounds_2 _ _ _ _ Hi Hj) as Hb.
  exists (mk_ndarray [T] (column P T [i; j])).
  eexists. exists (ibe_of P T [Y; X] (scale rho_default g_default)).
  split; [by apply (series_at_3d P T Y X)|].
  split; [reflexivity|].
  split; [apply slp_to_ibe_3d; done|].
  split; [done|].
  rewrite (column_ibe_of _ _ _ _ _ HP Hb). cbn [data scalar_mul sub_cell].
  rewrite map_map.
  rewrite np_mean_numbers.
  - done.
  - by apply (column_no_nan _ _ _ _ HP).
  - intros E. apply (f_equal length) in E. rewrite length_column in E.
    simpl in E. lia.
Qed.

Lemma test_correction_agrees_witness :
  exists p c h,
    series_at P_sample 1 0 = Ok p /\ test_correction p = Ok c /\
    slp_to_ibe P_sample rho_default g_default PyNone = Ok h /\
    shape c = [2] /\ data c = column h 2 [1; 0].
Proof.
  apply (test_correction_agrees P_sample 2 2 2 1 0);
    try reflexivity; lia.
Defined.

(** * Part VII: what rounding does to the relations between two results *)

(** C6 fails as stated.  Over binary64, at the sample of the specification
    with [rho2 = 1025] and [g2 = 9.81], the two sides of the scaling law
    are 0.009919418414182183 and 0.009919418414182181 at the first cell,
    and [==] is false at every cell; and a not-a-number cell is never
    [==] to itself. *)
Lemma slp_to_ibe_scaling_binary64 :
  exists h h2 hg,
    slp_to_ibe64 P_sample64 rho_default64 g_default64 PyNone = Ok h /\
    slp_to_ibe64 P_sample64 rho_other64 g_other64 PyNone = Ok h2 /\
    item64 h [0; 0; 0] = 0x1.450a1cd795975p-7%float /\
    item64 (scaled_back64 h2 rho_default64 g_default64 rho_other64 g_other64)
           [0; 0; 0] = 0x1.450a1cd795974p-7%float /\
    cells_equal64 h
      (scaled_back64 h2 rho_default64 g_default64 rho_other64 g_other64)
    = [false; false; false; false; false; false; false; false] /\
    slp_to_ibe64 P_gaps64 rho_default64 g_default64 PyNone = Ok hg /\
    cells_equal64 hg hg = [true; false; true; true].
Proof.
  eexists _, _, _. repeat split; vm_compute; reflexivity.
Qed.

(** C10 fails as stated.  Over binary64, adding [c = 2^60] to the sample of
    the specification rounds every cell to the same number, and the result
    is zero everywhere instead of +0.0099 m and -0.0099 m; adding
    [c = 0.1] to a series of three steps changes its result in the last
    digits. *)
Lemma slp_to_ibe_translation_binary64 :
  exists h hc hs hsc,
    slp_to_ibe64 P_sample64 rho_default64 g_default64 PyNone = Ok h /\
    slp_to_ibe64 (add_scalar64 P_sample64 0x1p60) rho_default64 g_default64 PyNone
    = Ok hc /\
    data64 (add_scalar64 P_sample64 0x1p60)
    = repeat 0x1.000000000018cp+60%float 8 /\
    data64 h = repeat 0x1.450a1cd795975p-7%float 4
               ++ repeat (-0x1.450a1cd795975p-7)%float 4 /\
    data64 hc = repeat (-0)%float 8 /\
    cells_equal64 hc h = repeat false 8 /\
    slp_to_ibe64 P_series64 rho_default64 g_default64 PyNone = Ok hs /\
    slp_to_ibe64 (add_scalar64 P_series64 tenth64) rho_default64 g_default64 PyNone
    = Ok hsc /\
    cells_equal64 hsc hs = [false; false; false].
Proof.
  eexists _, _, _, _. repeat split; vm_compute; reflexivity.
Qed.

(** Over binary64, rescaling the pressure by one tenth and rescaling the
    result by one tenth differ in the last digit of one cell. *)
Example slp_to_ibe_homogeneous_binary64 :
  exists hc h,
    slp_to_ibe64 (scalar_mul64 tenth64 P_series64) rho_default64 g_default64 PyNone
    = Ok hc /\
    slp_to_ibe64 P_series64 rho_default64 g_default64 PyNone = Ok h /\
    cells_equal64 hc (scalar_mul64 tenth64 h) = [true; true; false].
Proof.
  eexists _, _. repeat split; vm_compute; reflexivity.
Qed.

(** Over binary64 the product [rho * g] of two tiny positive factors rounds
    to zero and the call raises; a 0-dimensional input fails on line 80 as
    over exact cells. *)
Example slp_to_ibe64_edges :
  slp_to_ibe64 P_sample64 0x1p-600 0x1p-600 PyNone = Err ZeroDivisionError /\
  slp_to_ibe64 (mk_ndarray64 [] [101300%float]) rho_default64 g_default64 PyNone
  = Err IndexError.
Proof. split; vm_compute; reflexivity. Qed.

(** Run on the file it has written, [main] opens it and stops at the
    first variable. *)
Example main_on_hdf5 :
  main ["slp2ibe.py"; "IBE_sample.h5"] sample_fs_after = Err KeyError.
Proof. vm_compute. reflexivity. Qed.
